(** * aclients.aio_redis_client: sessions and generic accessors over a Redis store

    A shallow embedding of [src/aclients/aio_redis_client.py].

    - [pyval] is the universe of Python values the module inspects at run
      time ([isinstance(val, str)], truthiness, [MutableMapping]).
    - [Json] models [ujson.dumps] on that universe, and [ujson.loads] as
      far as it is decided there: a text is decoded to a value of the
      universe, or refused, or left undecided (a float, a character beyond
      255, an input only a lenient decoder takes).
    - [cmd] is the interface of [self.redis_db]; a client method is a
      [prog]: a tree of store calls whose continuations receive either the
      reply or the [RedisError] raised by the call.
    - [Env] is whatever answers the calls; [redis_env] is a sequential model
      of a Redis server behind the client library. *)

From Stdlib Require Import ZArith List String Ascii Decimal DecimalZ Lia.
From stdpp Require Import base option list gmap strings.

Local Open Scope string_scope.
Local Open Scope list_scope.
Local Open Scope Z_scope.

#[local] Set Warnings "-register-all".

(** ** Python values *)

(** The JSON-shaped part of Python's values: [None], [bool], [int], [str],
    [list], and [dict] with [str] keys in insertion order.  Characters of a
    [str] are the code points below 256.  Floats are left out. *)
Inductive pyval : Type :=
| PNone
| PBool (b : bool)
| PInt (z : Z)
| PStr (s : string)
| PList (l : list pyval)
| PDict (d : list (string * pyval)).

(** [isinstance(v, str)] *)
Definition is_str (v : pyval) : bool :=
  match v with PStr _ => true | _ => false end.

(** [isinstance(v, MutableMapping)] *)
Definition is_mapping (v : pyval) : bool :=
  match v with PDict _ => true | _ => false end.

(** [bool(v)] *)
Definition truthy (v : pyval) : bool :=
  match v with
  | PNone => false
  | PBool b => b
  | PInt z => negb (z =? 0)
  | PStr s => negb (String.eqb s "")
  | PList l => match l with [] => false | _ => true end
  | PDict d => match d with [] => false | _ => true end
  end.

(** [d[k]] on an insertion-ordered dict. *)
Fixpoint dict_get {V : Type} (k : string) (d : list (string * V)) : option V :=
  match d with
  | [] => None
  | (k', v) :: d' => if String.eqb k k' then Some v else dict_get k d'
  end.

(** [d[k] = v]: overwrite in place, or append a new key. *)
Fixpoint dict_set {V : Type} (k : string) (v : V) (d : list (string * V))
  : list (string * V) :=
  match d with
  | [] => [(k, v)]
  | (k', v') :: d' =>
      if String.eqb k k' then (k', v) :: d' else (k', v') :: dict_set k v d'
  end.

(** [del d[k]] *)
Fixpoint dict_del {V : Type} (k : string) (d : list (string * V))
  : list (string * V) :=
  match d with
  | [] => []
  | (k', v') :: d' =>
      if String.eqb k k' then d' else (k', v') :: dict_del k d'
  end.

(** [dict(items)] *)
Definition dict_of_items {V : Type} (items : list (string * V))
  : list (string * V) :=
  fold_left (fun d kv => dict_set (fst kv) (snd kv) d) items [].

(** A term of [pyval] is a Python value when the keys of each [dict] in it
    are pairwise distinct. *)
Fixpoint py_wf (v : pyval) : Prop :=
  match v with
  | PList l => (fix all (l : list pyval) : Prop :=
                  match l with [] => True | x :: l' => py_wf x /\ all l' end) l
  | PDict d => NoDup (map fst d) /\
               (fix all (d : list (string * pyval)) : Prop :=
                  match d with [] => True | kv :: d' => py_wf (snd kv) /\ all d' end) d
  | _ => True
  end.

(** ** ujson *)

(** The encoder and the decoder on [pyval].  Integers are Python's, of any
    size, and values nest to any depth: the bounds a build of the library
    puts on either are not modelled. *)

Module Json.

Local Open Scope char_scope.
Local Open Scope list_scope.

Definition digit_char (c : ascii) : option (uint -> uint) :=
  match c with
  | "0" => Some D0 | "1" => Some D1 | "2" => Some D2 | "3" => Some D3
  | "4" => Some D4 | "5" => Some D5 | "6" => Some D6 | "7" => Some D7
  | "8" => Some D8 | "9" => Some D9
  | _ => None
  end.

Fixpoint emit_uint (u : uint) : list ascii :=
  match u with
  | Nil => []
  | D0 u => "0" :: emit_uint u | D1 u => "1" :: emit_uint u
  | D2 u => "2" :: emit_uint u | D3 u => "3" :: emit_uint u
  | D4 u => "4" :: emit_uint u | D5 u => "5" :: emit_uint u
  | D6 u => "6" :: emit_uint u | D7 u => "7" :: emit_uint u
  | D8 u => "8" :: emit_uint u | D9 u => "9" :: emit_uint u
  end.

Definition emit_int (z : Z) : list ascii :=
  match Z.to_int z with
  | Pos u => emit_uint u
  | Neg u => "-" :: emit_uint u
  end.

(** The longest prefix of decimal digits. *)
Fixpoint read_digits (s : list ascii) : uint * list ascii :=
  match s with
  | [] => (Nil, [])
  | c :: r =>
      match digit_char c with
      | Some d => let '(u, r') := read_digits r in (d u, r')
      | None => (Nil, s)
      end
  end.

Definition hex_char (n : N) : ascii :=
  match n with
  | 0 => "0" | 1 => "1" | 2 => "2" | 3 => "3" | 4 => "4" | 5 => "5"
  | 6 => "6" | 7 => "7" | 8 => "8" | 9 => "9" | 10 => "a" | 11 => "b"
  | 12 => "c" | 13 => "d" | 14 => "e" | _ => "f"
  end%N.

Definition hex_val (c : ascii) : option N :=
  let n := N_of_ascii c in
  if ((48 <=? n) && (n <=? 57))%N then Some (n - 48)%N
  else if ((97 <=? n) && (n <=? 102))%N then Some (n - 87)%N
  else if ((65 <=? n) && (n <=? 70))%N then Some (n - 55)%N
  else None.

(** One character of a string literal as the encoder writes it: the
    quote, the backslash and the forward slash are escaped, control
    characters and characters outside ASCII become [\b \f \n \r \t] or
    [\u00XX]. *)
Definition escape (c : ascii) : list ascii :=
  let n := N_of_ascii c in
  if Ascii.eqb c "034" then ["\"; "034"]
  else if Ascii.eqb c "\" then ["\"; "\"]
  else if Ascii.eqb c "/" then ["\"; "/"]
  else if (n =? 8)%N then ["\"; "b"]
  else if (n =? 12)%N then ["\"; "f"]
  else if (n =? 10)%N then ["\"; "n"]
  else if (n =? 13)%N then ["\"; "r"]
  else if (n =? 9)%N then ["\"; "t"]
  else if ((n <? 32) || (128 <=? n))%N
       then ["\"; "u"; "0"; "0"; hex_char (n / 16); hex_char (n mod 16)]
  else [c].

Definition emit_string (s : list ascii) : list ascii :=
  "034" :: flat_map escape s ++ ["034"].

(** The character of a [\uXXXX] escape.  A code point of 256 or more is a
    character that the strings of the model do not have: the reader gives
    up on the text, which [loads] then leaves undecided. *)
Definition hex4 (a b c d : ascii) : option ascii :=
  match hex_val a, hex_val b, hex_val c, hex_val d with
  | Some x, Some y, Some z, Some w =>
      let n := (((x * 16 + y) * 16 + z) * 16 + w)%N in
      if (n <? 256)%N then Some (ascii_of_N n) else None
  | _, _, _, _ => None
  end.

(** The body of a string literal, after its opening quote.  A raw control
    character is not read: JSON wants it escaped, and the reader takes only
    what every decoder takes. *)
Fixpoint read_string (s : list ascii) : option (list ascii * list ascii) :=
  match s with
  | [] => None
  | c :: r =>
      if Ascii.eqb c "034" then Some ([], r)
      else if Ascii.eqb c "\" then
        match r with
        | [] => None
        | e :: r1 =>
            if Ascii.eqb e "u" then
              match r1 with
              | h1 :: h2 :: h3 :: h4 :: r2 =>
                  match hex4 h1 h2 h3 h4, read_string r2 with
                  | Some x, Some (xs, r') => Some (x :: xs, r')
                  | _, _ => None
                  end
              | _ => None
              end
            else
              let simple (x : ascii) :=
                match read_string r1 with
                | Some (xs, r') => Some (x :: xs, r')
                | None => None
                end in
              if Ascii.eqb e "034" then simple "034"
              else if Ascii.eqb e "\" then simple "\"
              else if Ascii.eqb e "/" then simple "/"
              else if Ascii.eqb e "b" then simple (ascii_of_N 8)
              else if Ascii.eqb e "f" then simple (ascii_of_N 12)
              else if Ascii.eqb e "n" then simple (ascii_of_N 10)
              else if Ascii.eqb e "r" then simple (ascii_of_N 13)
              else if Ascii.eqb e "t" then simple (ascii_of_N 9)
              else None
        end
      else if (N_of_ascii c <? 32)%N then None
      else
        match read_string r with
        | Some (xs, r') => Some (c :: xs, r')
        | None => None
        end
  end.

Definition is_space (c : ascii) : bool :=
  let n := N_of_ascii c in
  ((n =? 32) || (n =? 9) || (n =? 10) || (n =? 13))%N.

Fixpoint skip_ws (s : list ascii) : list ascii :=
  match s with
  | c :: r => if is_space c then skip_ws r else s
  | [] => []
  end.

(** [sep.join(parts)] *)
Fixpoint join (sep : ascii) (parts : list (list ascii)) : list ascii :=
  match parts with
  | [] => []
  | [p] => p
  | p :: parts' => p ++ sep :: join sep parts'
  end.

(** [ujson.dumps]: compact output, no white space. *)
Fixpoint emit (v : pyval) : list ascii :=
  match v with
  | PNone => ["n"; "u"; "l"; "l"]
  | PBool true => ["t"; "r"; "u"; "e"]
  | PBool false => ["f"; "a"; "l"; "s"; "e"]
  | PInt z => emit_int z
  | PStr s => emit_string (list_ascii_of_string s)
  | PList l => "[" :: join "," (map emit l) ++ ["]"]
  | PDict d =>
      "{" :: join ","
               (map (fun kv =>
                       emit_string (list_ascii_of_string (fst kv))
                         ++ ":" :: emit (snd kv)) d)
          ++ ["}"]
  end.

Definition dumps (v : pyval) : string := string_of_list_ascii (emit v).

(** One [key:value] pair of an object, as [emit] writes it. *)
Definition emit_member (kv : string * pyval) : list ascii :=
  emit_string (list_ascii_of_string (fst kv)) ++ ":" :: emit (snd kv).

(** An integer in the decimal notation the encoder writes: digits, at
    least one, no leading zero, no [-0], and no fraction or exponent after
    them.  Anything else that begins like a number (a float, a lone [-],
    [01]) is not read here, and [loads] leaves it undecided. *)
Definition read_number (neg : bool) (s : list ascii)
  : option (pyval * list ascii) :=
  match read_digits s with
  | (Nil, _) => None
  | (u, r) =>
      let i := if neg then Neg u else Pos u in
      if negb (int_beq (norm i) i) then None
      else
        match r with
        | [] => Some (PInt (Z.of_int i), r)
        | c :: _ =>
            if Ascii.eqb c "." || Ascii.eqb c "e" || Ascii.eqb c "E" then None
            else Some (PInt (Z.of_int i), r)
        end
  end.

(** [s] without the prefix [lit], when it starts with it. *)
Fixpoint starts (lit s : list ascii) : option (list ascii) :=
  match lit, s with
  | [], _ => Some s
  | a :: lit', c :: r => if Ascii.eqb a c then starts lit' r else None
  | _ :: _, [] => None
  end.

(** The input after white space and the character [c], when that is
    what comes next. *)
Definition peek (c : ascii) (s : list ascii) : option (list ascii) :=
  match skip_ws s with
  | x :: r => if Ascii.eqb x c then Some r else None
  | [] => None
  end.

(** The decoder, by recursive descent; [fuel] bounds the nesting and the
    number of siblings, and the length of the input is always enough. *)
Fixpoint read_value (fuel : nat) (s : list ascii)
  : option (pyval * list ascii) :=
  match fuel with
  | O => None
  | S fuel =>
      match skip_ws s with
      | [] => None
      | c :: r =>
          if Ascii.eqb c "[" then
            match peek "]" r with
            | Some r' => Some (PList [], r')
            | None =>
                match read_elems fuel r with
                | Some (l, r') => Some (PList l, r')
                | None => None
                end
            end
          else if Ascii.eqb c "{" then
            match peek "}" r with
            | Some r' => Some (PDict [], r')
            | None =>
                match read_members fuel r with
                | Some (d, r') => Some (PDict (dict_of_items d), r')
                | None => None
                end
            end
          else if Ascii.eqb c "034" then
            match read_string r with
            | Some (x, r') => Some (PStr (string_of_list_ascii x), r')
            | None => None
            end
          else if Ascii.eqb c "-" then read_number true r
          else
            match starts ["n"; "u"; "l"; "l"] (c :: r) with
            | Some r' => Some (PNone, r')
            | None =>
            match starts ["t"; "r"; "u"; "e"] (c :: r) with
            | Some r' => Some (PBool true, r')
            | None =>
            match starts ["f"; "a"; "l"; "s"; "e"] (c :: r) with
            | Some r' => Some (PBool false, r')
            | None => read_number false (c :: r)
            end end end
      end
  end
with read_elems (fuel : nat) (s : list ascii)
  : option (list pyval * list ascii) :=
  match fuel with
  | O => None
  | S fuel =>
      match read_value fuel s with
      | Some (x, r) =>
          match peek "," r with
          | Some r' =>
              match read_elems fuel r' with
              | Some (l, r'') => Some (x :: l, r'')
              | None => None
              end
          | None =>
              match peek "]" r with
              | Some r' => Some ([x], r')
              | None => None
              end
          end
      | None => None
      end
  end
with read_members (fuel : nat) (s : list ascii)
  : option (list (string * pyval) * list ascii) :=
  match fuel with
  | O => None
  | S fuel =>
      match peek "034" s with
      | Some r =>
          match read_string r with
          | Some (k, r1) =>
              match peek ":" r1 with
              | Some r2 =>
                  match read_value fuel r2 with
                  | Some (x, r3) =>
                      match peek "," r3 with
                      | Some r4 =>
                          match read_members fuel r4 with
                          | Some (d, r5) =>
                              Some ((string_of_list_ascii k, x) :: d, r5)
                          | None => None
                          end
                      | None =>
                          match peek "}" r3 with
                          | Some r4 =>
                              Some ([(string_of_list_ascii k, x)], r4)
                          | None => None
                          end
                      end
                  | None => None
                  end
              | None => None
              end
          | None => None
          end
      | None => None
      end
  end.

(** The whole text as one value of the universe, white space around it
    allowed. *)
Definition read_text (s : string) : option pyval :=
  let cs := list_ascii_of_string s in
  match read_value (S (length cs)) cs with
  | Some (v, r) => match skip_ws r with [] => Some v | _ => None end
  | None => None
  end.

(** Whether the text begins, after white space, with a character that a
    JSON value can begin with: a quote, a bracket, a brace, a minus sign, a
    digit, or the first letter of [true], [false], [null], [NaN],
    [Infinity]. *)
Definition may_open (s : string) : bool :=
  match skip_ws (list_ascii_of_string s) with
  | [] => false
  | c :: _ =>
      bool_decide (c ∈ ["034"; "["; "{"; "-"; "0"; "1"; "2"; "3"; "4"; "5";
                        "6"; "7"; "8"; "9"; "t"; "f"; "n"; "N"; "I"])
  end.

(** What the model knows of [ujson.loads s]: it returns [v]; it raises
    [ValueError]; or it is undecided, when the value is outside the
    universe or the model does not tell whether a value is returned. *)
Inductive parsed : Type :=
| Parsed (v : pyval)
| Malformed
| Undecided.

(** [ujson.loads], as far as the model decides it: a text that [read_text]
    reads is decoded to that value; a text that does not even begin like a
    JSON value is refused; every other text (a float, [NaN], a lone [-], an
    escape beyond 255, a text that begins like JSON and goes wrong later)
    is left undecided. *)
Definition loads (s : string) : parsed :=
  match read_text s with
  | Some v => Parsed v
  | None => if may_open s then Undecided else Malformed
  end.

End Json.

(** ** Exceptions and results *)

(** The exception classes the module raises.  [RedisClientError] is the
    class imported from [aclients.exceptions]; the others are Python's. *)
Inductive exn : Type :=
| RedisClientError (msg : string)
| ValueError (msg : string)
| TypeError (msg : string)
| KeyError (key : string).

Inductive outcome (A : Type) : Type :=
| Returns (a : A)
| Raises (e : exn).
Arguments Returns {A} a.
Arguments Raises {A} e.

Definition is_client_error {A : Type} (o : outcome A) : Prop :=
  match o with Raises (RedisClientError _) => True | _ => False end.

(** ** The store handle *)

(** The methods of [self.redis_db] that the module calls, indexed by the
    type of their reply ([decode_responses=True]: replies are [str]). *)
Inductive cmd : Type -> Type :=
| HMSET (name : string) (mapping : list (string * string)) : cmd bool
| EXPIRE (name : string) (ex : Z) : cmd bool
| HGET (name key : string) : cmd (option string)
| HGETALL (name : string) : cmd (list (string * string))
| DELETE (names : list string) : cmd Z
| LPUSH (name : string) (values : list string) : cmd Z
| RPUSH (name : string) (values : list string) : cmd Z
| LRANGE (name : string) (start stop : Z) : cmd (list string)
| SET (name value : string) (ex : Z) : cmd bool
| GET (name : string) : cmd (option string).

(** A call as it appears in a trace. *)
Inductive issued : Type :=
| Issued {R : Type} (c : cmd R).

(** An [async def] of the client: it returns, raises, awaits a store call
    (the continuation gets the reply, or the message of the [RedisError]
    the call raised), or draws [uuid.uuid4().hex]. *)
Inductive prog (A : Type) : Type :=
| Ret (a : A)
| Raise (e : exn)
| Call {R : Type} (c : cmd R) (k : string + R -> prog A)
| Uuid4 (k : string -> prog A).
Arguments Ret {A} a.
Arguments Raise {A} e.
Arguments Call {A R} c k.
Arguments Uuid4 {A} k.

Fixpoint bind {A B : Type} (p : prog A) (f : A -> prog B) : prog B :=
  match p with
  | Ret a => f a
  | Raise e => Raise e
  | Call c k => Call c (fun r => bind (k r) f)
  | Uuid4 k => Uuid4 (fun u => bind (k u) f)
  end.

(** [try: x = await self.redis_db.c(..) ... except RedisError as e:
    raise RedisClientError(str(e))] *)
Definition await {A R : Type} (c : cmd R) (k : R -> prog A) : prog A :=
  Call c (fun r =>
            match r with
            | inl e => Raise (RedisClientError e)
            | inr x => k x
            end).

Notation "'let!' x := c 'in' k" := (await c (fun x => k))
  (at level 10, x name, c at level 100, k at level 200).

(** Whatever stands behind the handle: a state, an answer to every call,
    and a source of fresh identifiers. *)
Class Env (S : Type) : Type := {
  redis_db : forall R : Type, cmd R -> S -> (string + R) * S;
  uuid4_hex : S -> string * S
}.
Arguments redis_db {S _ R} c st.

(** Running a client method: its outcome, the final state, and the store
    calls it made, in order. *)
Fixpoint exec {S : Type} `{Env S} {A : Type} (p : prog A) (st : S)
  : outcome A * S * list issued :=
  match p with
  | Ret a => (Returns a, st, [])
  | Raise e => (Raises e, st, [])
  | Call c k =>
      let '(r, st1) := redis_db c st in
      let '(o, st2, tr) := exec (k r) st1 in
      (o, st2, Issued c :: tr)
  | Uuid4 k =>
      let '(u, st1) := uuid4_hex st in exec (k u) st1
  end.

Definition result {S : Type} `{Env S} {A : Type} (p : prog A) (st : S)
  : outcome A := fst (fst (exec p st)).
Definition final {S : Type} `{Env S} {A : Type} (p : prog A) (st : S)
  : S := snd (fst (exec p st)).
Definition trace {S : Type} `{Env S} {A : Type} (p : prog A) (st : S)
  : list issued := snd (exec p st).

(** ** A sequential Redis server *)

Module Redis.

Inductive rvalue : Type :=
| RString (s : string)
| RHash (h : list (string * string))
| RList (l : list string).

(** A key holds a value and, once set, the seconds it has left. *)
Record entry : Type := Entry { value : rvalue; ttl : option Z }.

(** The key space, and the identifiers [uuid4] will hand out.  No time
    passes between two calls: a ttl is recorded, and a key leaves only by
    [DEL] or by an [EXPIRE] with a ttl that is not positive. *)
Record server : Type := Server {
  db : gmap string entry;
  uuids : nat -> string;
  drawn : nat
}.

Definition wrongtype : string :=
  "WRONGTYPE Operation against a key holding the wrong kind of value".

Definition hash_update (h mapping : list (string * string))
  : list (string * string) :=
  fold_left (fun d kv => dict_set (fst kv) (snd kv) d) mapping h.

(** [LRANGE]: negative indices count from the end, both ends inclusive. *)
Definition lrange (l : list string) (start stop : Z) : list string :=
  let llen := Z.of_nat (length l) in
  let start := if start <? 0 then llen + start else start in
  let stop := if stop <? 0 then llen + stop else stop in
  let start := if start <? 0 then 0 else start in
  if (stop <? start) || (llen <=? start) then []
  else
    let stop := if llen <=? stop then llen - 1 else stop in
    take (Z.to_nat (stop - start + 1)) (drop (Z.to_nat start) l).

Fixpoint delete_all (names : list string) (d : gmap string entry)
  : Z * gmap string entry :=
  match names with
  | [] => (0, d)
  | n :: names' =>
      match d !! n with
      | Some _ => let '(c, d') := delete_all names' (delete n d) in (1 + c, d')
      | None => delete_all names' d
      end
  end.

(** One call, as the client library and the server answer it:
    - [hmset] refuses an empty mapping before anything is sent; [HMSET]
      creates the hash or overwrites the given fields of it;
    - [EXPIRE] replies 0 on a missing key, and deletes the key when the
      ttl is not positive;
    - [HGET], [HGETALL], [LRANGE] and [GET] reply nil or empty on a missing
      key; a key of another type is a WRONGTYPE error for every command
      but [SET], [DEL] and [EXPIRE];
    - [LPUSH] puts the values at the head one after the other, so the last
      one comes first; [RPUSH] appends them; both need a value, and reply
      the new length;
    - [SET] with [EX] replaces whatever the key held. *)
Definition run {R : Type} (c : cmd R) (d : gmap string entry)
  : (string + R) * gmap string entry :=
  match c in cmd R return (string + R) * gmap string entry with
  | HMSET name mapping =>
      match mapping with
      | [] => (inl "'hmset' with 'mapping' of length 0", d)
      | _ =>
          match d !! name with
          | None =>
              (inr true, <[name := Entry (RHash (hash_update [] mapping)) None]> d)
          | Some (Entry (RHash h) t) =>
              (inr true, <[name := Entry (RHash (hash_update h mapping)) t]> d)
          | Some _ => (inl wrongtype, d)
          end
      end
  | EXPIRE name ex =>
      match d !! name with
      | None => (inr false, d)
      | Some (Entry v _) =>
          if ex <=? 0 then (inr true, delete name d)
          else (inr true, <[name := Entry v (Some ex)]> d)
      end
  | HGET name key =>
      match d !! name with
      | None => (inr None, d)
      | Some (Entry (RHash h) _) => (inr (dict_get key h), d)
      | Some _ => (inl wrongtype, d)
      end
  | HGETALL name =>
      match d !! name with
      | None => (inr [], d)
      | Some (Entry (RHash h) _) => (inr h, d)
      | Some _ => (inl wrongtype, d)
      end
  | DELETE names =>
      match names with
      | [] => (inl "ERR wrong number of arguments for 'del' command", d)
      | _ => let '(n, d') := delete_all names d in (inr n, d')
      end
  | LPUSH name values =>
      match values with
      | [] => (inl "ERR wrong number of arguments for 'lpush' command", d)
      | _ =>
          match d !! name with
          | None =>
              (inr (Z.of_nat (length values)),
               <[name := Entry (RList (rev values)) None]> d)
          | Some (Entry (RList l) t) =>
              (inr (Z.of_nat (length (rev values ++ l))),
               <[name := Entry (RList (rev values ++ l)) t]> d)
          | Some _ => (inl wrongtype, d)
          end
      end
  | RPUSH name values =>
      match values with
      | [] => (inl "ERR wrong number of arguments for 'rpush' command", d)
      | _ =>
          match d !! name with
          | None =>
              (inr (Z.of_nat (length values)),
               <[name := Entry (RList values) None]> d)
          | Some (Entry (RList l) t) =>
              (inr (Z.of_nat (length (l ++ values))),
               <[name := Entry (RList (l ++ values)) t]> d)
          | Some _ => (inl wrongtype, d)
          end
      end
  | LRANGE name start stop =>
      match d !! name with
      | None => (inr [], d)
      | Some (Entry (RList l) _) => (inr (lrange l start stop), d)
      | Some _ => (inl wrongtype, d)
      end
  | SET name value ex =>
      if ex <=? 0 then (inl "ERR invalid expire time in set", d)
      else (inr true, <[name := Entry (RString value) (Some ex)]> d)
  | GET name =>
      match d !! name with
      | None => (inr None, d)
      | Some (Entry (RString s) _) => (inr (Some s), d)
      | Some _ => (inl wrongtype, d)
      end
  end.

Definition handle (R : Type) (c : cmd R) (st : server)
  : (string + R) * server :=
  let '(r, d) := run c (db st) in (r, Server d (uuids st) (drawn st)).

Definition draw (st : server) : string * server :=
  (uuids st (drawn st), Server (db st) (uuids st) (S (drawn st))).

End Redis.

#[export] Instance redis_env : Env Redis.server :=
  {| redis_db := Redis.handle; uuid4_hex := Redis.draw |}.

(** A store that answers every write with a falsy reply and every read
    with a fixed hit; it stands for replies a sequential server never
    gives (lost keys between two calls, refused writes). *)
Module Refusing.

Definition handle (R : Type) (c : cmd R) (st : unit) : (string + R) * unit :=
  match c in cmd R return (string + R) * unit with
  | HMSET _ _ => (inr false, st)
  | EXPIRE _ _ => (inr false, st)
  | HGET name _ => (inr (Some name), st)
  | HGETALL name => (inr [("session_id", name)], st)
  | DELETE _ => (inr 0, st)
  | LPUSH _ _ => (inr 0, st)
  | RPUSH _ _ => (inr 0, st)
  | LRANGE _ _ _ => (inr [], st)
  | SET _ _ _ => (inr false, st)
  | GET _ => (inr None, st)
  end.

End Refusing.

Definition refusing_env : Env unit :=
  {| redis_db := Refusing.handle; uuid4_hex := fun st => ("", st) |}.

(** ** The client *)

(** [EXPIRED = 24 * 60 * 60] *)
Definition EXPIRED : Z := 24 * 60 * 60.

(** [class Session]: the four fixed attributes and, in the order they were
    given, the extra keyword attributes. *)
Record Session : Type := {
  user_id : pyval;
  session_id : pyval;
  org_id : pyval;
  permission_id : pyval;
  extras : list (string * pyval)
}.

(** [x or uuid.uuid4().hex] *)
Definition or_uuid4 (x : pyval) : prog pyval :=
  if truthy x then Ret x else Uuid4 (fun u => Ret (PStr u)).

(** [Session.__init__(self, user_id, *, session_id=None, org_id=None,
    permission_id=None, **kwargs)] *)
Definition Session_init (user_id session_id org_id permission_id : pyval)
  (kwargs : list (string * pyval)) : prog Session :=
  bind (or_uuid4 session_id) (fun sid =>
  bind (or_uuid4 org_id) (fun oid =>
  bind (or_uuid4 permission_id) (fun pid =>
  Ret {| user_id := user_id; session_id := sid; org_id := oid;
         permission_id := pid; extras := kwargs |}))).

Definition Session_params : list string :=
  ["user_id"; "session_id"; "org_id"; "permission_id"].

(** The call [Session(k1=v1, .., **mapping)]: a key of [mapping] that is
    also given by name is a [TypeError]; otherwise the names are bound to
    the parameters and what is left goes to [**kwargs].  (The wording of
    the interpreter's own messages changes between versions; the class of
    the exception is what the model keeps.) *)
Definition Session_call (named mapping : list (string * pyval))
  : prog Session :=
  match find (fun kv => bool_decide (fst kv ∈ map fst named)) mapping with
  | Some (k, _) =>
      Raise (TypeError
               ("__init__() got multiple values for keyword argument '"
                  +:+ k +:+ "'"))
  | None =>
      let given := named ++ mapping in
      match dict_get "user_id" given with
      | None =>
          Raise (TypeError
                   "__init__() missing 1 required positional argument: 'user_id'")
      | Some uid =>
          Session_init uid
            (default PNone (dict_get "session_id" given))
            (default PNone (dict_get "org_id" given))
            (default PNone (dict_get "permission_id" given))
            (filter (fun kv => fst kv ∉ Session_params) given)
      end
  end.

(** [vars(session)] *)
Definition vars (session : Session) : list (string * pyval) :=
  [("user_id", user_id session); ("session_id", session_id session);
   ("org_id", org_id session); ("permission_id", permission_id session)]
    ++ extras session.

(** A [Session] object: the extra attributes have distinct names, none of
    them a parameter of the constructor. *)
Definition Session_wf (session : Session) : Prop :=
  NoDup (map fst (vars session)).

(** [val if isinstance(val, str) else ujson.dumps(val)] *)
Definition str_or_dumps (val : pyval) : string :=
  match val with
  | PStr s => s
  | _ => Json.dumps val
  end.

(** [ujson.loads(val)] on any argument: what it returns or raises, or
    [None] where [Json.loads] leaves the text undecided.  An argument that
    is not a [str] is a [TypeError]. *)
Definition py_loads (val : pyval) : option (outcome pyval) :=
  match val with
  | PStr s =>
      match Json.loads s with
      | Json.Parsed v => Some (Returns v)
      | Json.Malformed => Some (Raises (ValueError "Expected object or value"))
      | Json.Undecided => None
      end
  | _ => Some (Raises (TypeError "Expected String or Unicode"))
  end.

(** What [get_usual_data] returns: a value of the universe, or, for a
    stored text that [Json.loads] leaves undecided, whatever
    [ujson.loads] makes of that text, the text itself if it raises. *)
Inductive usual : Type :=
| Known (v : pyval)
| Unknown (text : pyval).

(** Modelled from the spec: [ignore_error] of [aclients.utils], the context
    manager under which [get_usual_data] decodes; the spec has it fall back
    silently to the raw value if decoding fails. *)
Definition ignore_error {A : Type} (body : outcome A) (before : A) : A :=
  match body with
  | Returns a => a
  | Raises _ => before
  end.

Definition py_opt (o : option string) : pyval :=
  match o with Some s => PStr s | None => PNone end.

Definition py_strs (l : list string) : pyval := PList (PStr <$> l).

Definition py_items (m : list (string * string)) : list (string * pyval) :=
  (fun kv => (fst kv, PStr (snd kv))) <$> m.

(** [d[k]], raising [KeyError]. *)
Definition subscript {V A : Type} (d : list (string * V)) (k : string)
  (cont : V -> prog A) : prog A :=
  match dict_get k d with
  | Some v => cont v
  | None => Raise (KeyError k)
  end.

(** [{key: val if isinstance(val, str) else ujson.dumps(val)
      for key, val in vars(session).items()}] *)
Definition session_data (session : Session) : list (string * string) :=
  dict_of_items ((fun kv => (fst kv, str_or_dumps (snd kv))) <$> vars session).

Definition save_session (session : Session) (ex : Z) : prog pyval :=
  let session_data := session_data session in
  subscript session_data "session_id" (fun key =>
  let! ok := HMSET key session_data in
  if negb ok then
    Raise (RedisClientError ("save session failed, session_id=" +:+ key))
  else
  let! ok := EXPIRE key ex in
  if negb ok then
    Raise (RedisClientError ("set session expire failed, session_id=" +:+ key))
  else Ret (session_id session)).

Definition delete_session (session_id : string) : prog pyval :=
  let! session_id_ := HGET session_id "session_id" in
  if negb (bool_decide (session_id_ = Some session_id)) then
    Raise (RedisClientError ("invalid session_id, session_id=" +:+ session_id))
  else
  let! n := DELETE [session_id] in
  if n =? 0 then
    Raise (RedisClientError ("delete session failed, session_id=" +:+ session_id))
  else Ret PNone.

Definition update_session (session : Session) (ex : Z) : prog pyval :=
  let session_data := session_data session in
  subscript session_data "session_id" (fun key =>
  let! ok := HMSET key session_data in
  if negb ok then
    Raise (RedisClientError ("update session failed, session_id=" +:+ key))
  else
  let! ok := EXPIRE key ex in
  if negb ok then
    Raise (RedisClientError ("set session expire failed, session_id=" +:+ key))
  else Ret PNone).

(** [key: val if isinstance(val, str) else ujson.loads(val)], item by
    item; [ujson.loads] is reached only with a [val] that is not a [str],
    which it refuses with a [TypeError] (see [py_loads]), and the first
    such error ends the comprehension. *)
Fixpoint loads_unless_str (items : list (string * pyval))
  : outcome (list (string * pyval)) :=
  match items with
  | [] => Returns []
  | (key, val) :: items' =>
      match (if is_str val then Returns val
             else Raises (TypeError "Expected String or Unicode")) with
      | Raises e => Raises e
      | Returns v =>
          match loads_unless_str items' with
          | Raises e => Raises e
          | Returns d => Returns ((key, v) :: d)
          end
      end
  end.

Definition get_session (session_id : string) (ex : Z) : prog Session :=
  let! session_data := HGETALL session_id in
  if negb (truthy (PDict (py_items session_data))) then
    Raise (RedisClientError ("not found session, session_id=" +:+ session_id))
  else
  let! ok := EXPIRE session_id ex in
  if negb ok then
    Raise (RedisClientError
             ("set session expire failed, session_id=" +:+ session_id))
  else
  match loads_unless_str (py_items session_data) with
  | Raises e => Raise e
  | Returns items =>
      let session_data := dict_of_items items in
      subscript session_data "user_id" (fun uid =>
      let session_data := dict_del "user_id" session_data in
      subscript session_data "session_id" (fun sid =>
      subscript session_data "org_id" (fun oid =>
      subscript session_data "permission_id" (fun pid =>
      Session_call
        [("user_id", uid); ("session_id", sid); ("org_id", oid);
         ("permission_id", pid)]
        session_data))))
  end.

Section Encoding.

(** [str(value)] for the arguments that the client library sends as
    their [str()]: those that are neither [str] nor [int]. *)
Variable py_str : pyval -> string.

(** The client library's encoding of an argument. *)
Definition encode (value : pyval) : string :=
  match value with
  | PStr s => s
  | PInt z => string_of_list_ascii (Json.emit_int z)
  | PBool true => "True"
  | PBool false => "False"
  | _ => py_str value
  end.

Definition save_update_hash_data (name : string) (hash_data : pyval)
  (ex : Z) : prog pyval :=
  match hash_data with
  | PDict items =>
      let! ok := HMSET name ((fun kv => (fst kv, encode (snd kv))) <$> items) in
      if negb ok then
        Raise (RedisClientError ("save hash data failed, session_id=" +:+ name))
      else
      let! ok := EXPIRE name ex in
      if negb ok then
        Raise (RedisClientError
                 ("set hash data expire failed, session_id=" +:+ name))
      else Ret (PStr name)
  | _ => Raise (ValueError "hash data error, must be MutableMapping.")
  end.

Definition expire_then {A : Type} (name : string) (ex : Z) (data : A)
  : prog A :=
  let! ok := EXPIRE name ex in
  if negb ok then Raise (RedisClientError ("set expire failed, name=" +:+ name))
  else Ret data.

Definition get_hash_data (name : string) (field_name : pyval) (ex : Z)
  : prog pyval :=
  if truthy field_name then
    let! data := HGET name (encode field_name) in
    expire_then name ex (py_opt data)
  else
    let! data := HGETALL name in
    expire_then name ex (PDict (py_items data)).

Definition get_list_data (name : string) (start stop : Z) (ex : Z)
  : prog pyval :=
  let! data := LRANGE name start stop in
  expire_then name ex (py_strs data).

(** [*list_data]: the elements of a list, the keys of a dict;
    anything else is not iterable. *)
Definition star (v : pyval) : option (list pyval) :=
  match v with
  | PList l => Some l
  | PDict d => Some (PStr <$> map fst d)
  | PStr s => Some ((fun c => PStr (String c EmptyString)) <$> list_ascii_of_string s)
  | _ => None
  end.

Definition save_list_data (name : string) (list_data : pyval)
  (save_to_left : bool) (ex : Z) : prog pyval :=
  let list_data := if is_str list_data then PList [list_data] else list_data in
  match star list_data with
  | None => Raise (TypeError "argument after * must be an iterable")
  | Some values =>
      if save_to_left then
        let! n := LPUSH name (encode <$> values) in
        if n =? 0 then Raise (RedisClientError "lpush value to head failed.")
        else expire_then name ex (PStr name)
      else
        let! n := RPUSH name (encode <$> values) in
        if n =? 0 then Raise (RedisClientError "lpush value to tail failed.")
        else expire_then name ex (PStr name)
  end.

End Encoding.

Definition save_update_usual_data (name : string) (value : pyval) (ex : Z)
  : prog pyval :=
  (* ujson.dumps(value) if not isinstance(value, str) else value *)
  let value := str_or_dumps value in
  let! ok := SET name value ex in
  if negb ok then Raise (RedisClientError "set serializable value failed!")
  else Ret (PStr name).

Definition get_usual_data (name : string) (ex : Z) : prog usual :=
  let! data := GET name in
  let! ok := EXPIRE name ex in
  if negb ok then Raise (RedisClientError ("set expire failed, name=" +:+ name))
  else
    let data := py_opt data in
    Ret (match py_loads data with
         | Some body => Known (ignore_error body data)
         | None => Unknown data
         end).

(** [try: p  except Exception as e: h e]: the handler sees what [p]
    raises, never what comes after [p]. *)
Fixpoint try_except {A : Type} (p : prog A) (h : exn -> prog A) : prog A :=
  match p with
  | Ret a => Ret a
  | Raise e => h e
  | Call c k => Call c (fun r => try_except (k r) h)
  | Uuid4 k => Uuid4 (fun u => try_except (k u) h)
  end.

(** [a != b] for a [str] [a]: a [str] equals only the same [str]. *)
Definition str_ne (a : string) (b : pyval) : bool :=
  match b with
  | PStr s => negb (String.eqb a s)
  | _ => true
  end.

(** [session.session_id], for where a parameter has the attribute's name. *)
Definition its_session_id (session : Session) : pyval := session_id session.

Section Verify.

(** [str(e)] for a [RedisClientError] of the given message: the class
    comes from [aclients.exceptions], and what its [__str__] makes of the
    message is not fixed here. *)
Variable error_str : string -> string.

Definition verify (session_id : string) : prog Session :=
  bind
    (try_except (get_session session_id EXPIRED)
       (fun e =>
          match e with
          | RedisClientError msg => Raise (RedisClientError (error_str msg))
          | _ => Raise e
          end))
    (fun session =>
       if str_ne session_id (its_session_id session) then
         Raise (RedisClientError
                  ("invalid session_id, session_id=" +:+ session_id))
       else Ret session).

End Verify.

(** The exception [verify] raises for the exception [e] of [get_session]:
    the client's error is raised anew around [str(e)], any other exception
    passes. *)
Definition raised_anew (error_str : string -> string) (e : exn) : exn :=
  match e with
  | RedisClientError msg => RedisClientError (error_str msg)
  | _ => e
  end.

(** The server [srv] with the key space [d]. *)
Definition with_db (srv : Redis.server) (d : gmap string Redis.entry)
  : Redis.server :=
  Redis.Server d (Redis.uuids srv) (Redis.drawn srv).

(** ** Measures used in the proofs *)

(** Fuel that [Json.read_value] needs to read back what [Json.emit]
    wrote. *)
Fixpoint need (v : pyval) : nat :=
  match v with
  | PList l => S ((fix elems (l : list pyval) : nat :=
                     match l with
                     | [] => O
                     | x :: l' => S (need x + elems l')
                     end) l)
  | PDict d => S ((fix members (d : list (string * pyval)) : nat :=
                     match d with
                     | [] => O
                     | kv :: d' => S (need (snd kv) + members d')
                     end) d)
  | _ => 1%nat
  end.

Definition need_elems (l : list pyval) : nat :=
  fold_right (fun x n => S (need x + n)) O l.

Definition need_members (d : list (string * pyval)) : nat :=
  fold_right (fun kv n => S (need (snd kv) + n)) O d.

(** What may follow a value in a JSON text: nothing, or one of [,] [\]]
    [}]. *)
Definition closes (rest : list ascii) : Prop :=
  match rest with
  | [] => True
  | c :: _ => c = ","%char \/ c = "]"%char \/ c = "}"%char
  end.

(** The characters a value written by [Json.emit] can start with. *)
Definition opens (c : ascii) : bool :=
  bool_decide (c ∈ ["n"; "t"; "f"; "034"; "["; "{"; "-"; "0"; "1"; "2"; "3";
                    "4"; "5"; "6"; "7"; "8"; "9"]%char).

(** With enough fuel, a value written by [Json.emit] is read back whole,
    whatever delimiter follows it. *)
Definition reads_back (v : pyval) : Prop :=
  forall (fuel : nat) (rest : list ascii),
    (need v <= fuel)%nat -> py_wf v -> closes rest ->
    Json.read_value fuel (Json.emit v ++ rest) = Some (v, rest).

(** Two states used as concrete inputs: an empty server, and sessions. *)
Definition empty_server : Redis.server :=
  Redis.Server ∅ (fun n => "00000000000000000000000000000000") 0.

Definition alice : Session :=
  {| user_id := PStr "u1"; session_id := PStr "s1"; org_id := PStr "o1";
     permission_id := PStr "p1"; extras := [("age", PInt 30)] |}.

(** A server holding one hash, one of whose fields has the empty name. *)
Definition hash_server : Redis.server :=
  Redis.Server
    (<["h" := Redis.Entry (Redis.RHash [("", "blank"); ("a", "b")]) None]> ∅)
    (fun n => "00000000000000000000000000000000") 0.

(** Servers holding one key each: a stored session with a field the
    client did not write, a plain value, a list. *)
Definition session_server : Redis.server :=
  with_db empty_server
    (<["s1" := Redis.Entry
                 (Redis.RHash [("session_id", "s1"); ("theme", "dark");
                               ("age", "29")]) None]> ∅).

Definition plain_server : Redis.server :=
  with_db empty_server (<["k" := Redis.Entry (Redis.RString "[1,2]") (Some 60)]> ∅).

Definition list_server : Redis.server :=
  with_db empty_server (<["k" := Redis.Entry (Redis.RList ["b"; "c"]) None]> ∅).

(** * Facts *)

(** ** Python values *)

Section PyvalInd.

Variable P : pyval -> Prop.
Hypothesis HNone : P PNone.
Hypothesis HBool : forall b, P (PBool b).
Hypothesis HInt : forall z, P (PInt z).
Hypothesis HStr : forall s, P (PStr s).
Hypothesis HList : forall l, Forall P l -> P (PList l).
Hypothesis HDict : forall d, Forall (fun kv => P (snd kv)) d -> P (PDict d).

Fixpoint pyval_nested_ind (v : pyval) : P v :=
  match v with
  | PNone => HNone
  | PBool b => HBool b
  | PInt z => HInt z
  | PStr s => HStr s
  | PList l =>
      HList l ((fix all (l : list pyval) : Forall P l :=
                  match l with
                  | [] => Forall_nil_2 P
                  | x :: l' => Forall_cons_2 P x l' (pyval_nested_ind x) (all l')
                  end) l)
  | PDict d =>
      HDict d ((fix all (d : list (string * pyval))
                  : Forall (fun kv => P (snd kv)) d :=
                  match d with
                  | [] => Forall_nil_2 _
                  | kv :: d' =>
                      Forall_cons_2 _ kv d' (pyval_nested_ind (snd kv)) (all d')
                  end) d)
  end.

End PyvalInd.

Lemma py_wf_list (l : list pyval) : py_wf (PList l) <-> Forall py_wf l.
Proof.
  induction l as [|x l IH]; simpl.
  - split; [intros _; constructor | trivial].
  - rewrite Forall_cons. simpl in IH. rewrite IH. reflexivity.
Qed.

Lemma py_wf_dict (d : list (string * pyval)) :
  py_wf (PDict d) <-> NoDup (map fst d) /\ Forall (fun kv => py_wf (snd kv)) d.
Proof.
  simpl. apply and_iff_compat_l.
  induction d as [|kv d IH]; simpl.
  - split; [intros _; constructor | trivial].
  - rewrite Forall_cons, IH. reflexivity.
Qed.

Lemma need_list (l : list pyval) : need (PList l) = S (need_elems l).
Proof. reflexivity. Qed.

Lemma need_dict (d : list (string * pyval)) :
  need (PDict d) = S (need_members d).
Proof. reflexivity. Qed.

(** ** Dictionaries *)

Lemma dict_set_fresh {V : Type} (k : string) (v : V) (d : list (string * V)) :
  k ∉ map fst d -> dict_set k v d = d ++ [(k, v)].
Proof.
  induction d as [|[k' v'] d IH]; simpl; intros Hk; [reflexivity|].
  rewrite not_elem_of_cons in Hk. destruct Hk as [Hne Hk].
  destruct (String.eqb_spec k k') as [->|_]; [congruence|].
  rewrite IH by assumption. reflexivity.
Qed.

Lemma fold_dict_set_nodup {V : Type} (items acc : list (string * V)) :
  NoDup (map fst (acc ++ items)) ->
  fold_left (fun d kv => dict_set (fst kv) (snd kv) d) items acc = acc ++ items.
Proof.
  revert acc. induction items as [|[k v] items IH]; intros acc Hnd; simpl.
  - rewrite app_nil_r. reflexivity.
  - rewrite dict_set_fresh.
    + rewrite IH; rewrite <- app_assoc; [reflexivity | exact Hnd].
    + rewrite map_app in Hnd. simpl in Hnd.
      apply NoDup_app in Hnd. destruct Hnd as (_ & Hdisj & _).
      intros Hin. apply (Hdisj k Hin). left.
Qed.

Lemma dict_of_items_nodup {V : Type} (items : list (string * V)) :
  NoDup (map fst items) -> dict_of_items items = items.
Proof. intros Hnd. unfold dict_of_items. rewrite fold_dict_set_nodup; auto. Qed.

(** ** JSON: what is written is read back *)

Module JsonFacts.
Import Json.
Local Open Scope char_scope.

Lemma read_digits_emit_uint (u : uint) (rest : list ascii) :
  closes rest -> read_digits (emit_uint u ++ rest) = (u, rest).
Proof.
  intros Hrest.
  induction u; simpl; try (rewrite IHu; reflexivity).
  destruct rest as [|c rest]; [reflexivity|].
  simpl in Hrest. destruct Hrest as [->|[->| ->]]; reflexivity.
Qed.

Lemma to_int_canonical (z : Z) : int_beq (norm (Z.to_int z)) (Z.to_int z) = true.
Proof.
  apply internal_signed_int_dec_lb.
  rewrite <- (DecimalZ.of_to z) at 2. symmetry. apply DecimalZ.to_of.
Qed.

Lemma read_number_emit_uint (neg : bool) (u : uint) (rest : list ascii) :
  u <> Nil -> closes rest ->
  int_beq (norm (if neg then Neg u else Pos u)) (if neg then Neg u else Pos u)
  = true ->
  read_number neg (emit_uint u ++ rest)
  = Some (PInt (Z.of_int (if neg then Neg u else Pos u)), rest).
Proof.
  intros Hu Hrest Hcanon. unfold read_number.
  rewrite read_digits_emit_uint by assumption.
  destruct u; try congruence; cbv zeta; rewrite Hcanon; cbn [negb];
    (destruct rest as [|c rest]; [reflexivity|];
     simpl in Hrest; destruct Hrest as [->|[->| ->]]; reflexivity).
Qed.

Lemma read_string_escape (s rest : list ascii) :
  read_string (flat_map escape s ++ "034" :: rest) = Some (s, rest).
Proof.
  induction s as [|c s IH]; [reflexivity|].
  destruct c as [[] [] [] [] [] [] [] []];
    cbn -[read_string flat_map app];
    simpl; rewrite IH; reflexivity.
Qed.

Lemma opens_not_delimiter (c : ascii) :
  opens c = true ->
  is_space c = false /\ Ascii.eqb c "]" = false /\ Ascii.eqb c "}" = false.
Proof.
  destruct c as [[] [] [] [] [] [] [] []]; vm_compute;
    (discriminate || (intros _; repeat split)).
Qed.

Lemma emit_uint_opens (u : uint) :
  u <> Nil -> exists c tl, emit_uint u = c :: tl /\ opens c = true.
Proof. destruct u; intros Hu; try congruence; simpl; eauto. Qed.

Lemma to_int_nonnil (z : Z) :
  match Z.to_int z with Pos u | Neg u => u <> Nil end.
Proof.
  destruct z; simpl; try apply DecimalPos.Unsigned.to_uint_nonnil.
  discriminate.
Qed.

Lemma emit_opens (v : pyval) :
  exists c tl, emit v = c :: tl /\ opens c = true.
Proof.
  destruct v as [| [] | z | s | l | d]; simpl; eauto.
  unfold emit_int. pose proof (to_int_nonnil z) as Hz.
  destruct (Z.to_int z) as [u|u]; [apply emit_uint_opens, Hz | eauto].
Qed.

Lemma peek_other (x c : ascii) (r : list ascii) :
  is_space c = false -> Ascii.eqb c x = false -> peek x (c :: r) = None.
Proof. intros Hs Hx. unfold peek. simpl. rewrite Hs, Hx. reflexivity. Qed.

Lemma peek_close_emit (v : pyval) (r : list ascii) :
  peek "]" (emit v ++ r) = None /\ peek "}" (emit v ++ r) = None.
Proof.
  destruct (emit_opens v) as (c & tl & -> & Hc).
  apply opens_not_delimiter in Hc. destruct Hc as (Hs & H1 & H2).
  split; apply peek_other; assumption.
Qed.

Lemma read_value_open_list (fuel : nat) (r : list ascii) :
  read_value (S fuel) ("[" :: r)
  = match peek "]" r with
    | Some r' => Some (PList [], r')
    | None =>
        match read_elems fuel r with
        | Some (l, r') => Some (PList l, r')
        | None => None
        end
    end.
Proof. reflexivity. Qed.

Lemma read_value_open_dict (fuel : nat) (r : list ascii) :
  read_value (S fuel) ("{" :: r)
  = match peek "}" r with
    | Some r' => Some (PDict [], r')
    | None =>
        match read_members fuel r with
        | Some (d, r') => Some (PDict (dict_of_items d), r')
        | None => None
        end
    end.
Proof. reflexivity. Qed.

Lemma read_value_quote (fuel : nat) (r : list ascii) :
  read_value (S fuel) ("034" :: r)
  = match read_string r with
    | Some (x, r') => Some (PStr (string_of_list_ascii x), r')
    | None => None
    end.
Proof. reflexivity. Qed.

Lemma read_value_minus (fuel : nat) (r : list ascii) :
  read_value (S fuel) ("-" :: r) = read_number true r.
Proof. reflexivity. Qed.

Lemma read_value_digit (fuel : nat) (c : ascii) (r : list ascii) :
  digit_char c <> None ->
  read_value (S fuel) (c :: r) = read_number false (c :: r).
Proof.
  destruct c as [[] [] [] [] [] [] [] []]; intros Hc;
    solve [reflexivity | exfalso; apply Hc; reflexivity].
Qed.

Lemma read_elems_S (fuel : nat) (s : list ascii) :
  read_elems (S fuel) s
  = match read_value fuel s with
    | Some (x, r) =>
        match peek "," r with
        | Some r' =>
            match read_elems fuel r' with
            | Some (l, r'') => Some (x :: l, r'')
            | None => None
            end
        | None =>
            match peek "]" r with
            | Some r' => Some ([x], r')
            | None => None
            end
        end
    | None => None
    end.
Proof. reflexivity. Qed.

Lemma read_members_S (fuel : nat) (s : list ascii) :
  read_members (S fuel) s
  = match peek "034" s with
    | Some r =>
        match read_string r with
        | Some (k, r1) =>
            match peek ":" r1 with
            | Some r2 =>
                match read_value fuel r2 with
                | Some (x, r3) =>
                    match peek "," r3 with
                    | Some r4 =>
                        match read_members fuel r4 with
                        | Some (d, r5) =>
                            Some ((string_of_list_ascii k, x) :: d, r5)
                        | None => None
                        end
                    | None =>
                        match peek "}" r3 with
                        | Some r4 => Some ([(string_of_list_ascii k, x)], r4)
                        | None => None
                        end
                    end
                | None => None
                end
            | None => None
            end
        | None => None
        end
    | None => None
    end.
Proof. reflexivity. Qed.

Lemma read_elems_emit (l : list pyval) :
  Forall reads_back l -> l <> [] ->
  forall (fuel : nat) (rest : list ascii),
    (need_elems l <= fuel)%nat -> Forall py_wf l ->
    read_elems fuel (join "," (map emit l) ++ "]" :: rest) = Some (l, rest).
Proof.
  induction 1 as [|x l Hx Hl IH]; [congruence|]. intros _ fuel rest Hfuel Hwf.
  apply Forall_cons in Hwf. destruct Hwf as [Hwx Hwl].
  simpl in Hfuel. destruct fuel as [|fuel]; [lia|].
  rewrite read_elems_S.
  destruct l as [|y l].
  - simpl. rewrite Hx; [reflexivity | lia | assumption | simpl; auto].
  - change (join "," (map emit (x :: y :: l)))
      with (emit x ++ "," :: join "," (map emit (y :: l))).
    rewrite <- app_assoc. simpl app.
    rewrite Hx; [| lia | assumption | simpl; auto].
    change (peek "," ("," :: ?r)) with (Some r).
    cbv beta iota.
    rewrite IH; [reflexivity | congruence | | assumption].
    fold (need_elems (y :: l)) in Hfuel. lia.
Qed.

Lemma read_members_emit (d : list (string * pyval)) :
  Forall (fun kv => reads_back (snd kv)) d -> d <> [] ->
  forall (fuel : nat) (rest : list ascii),
    (need_members d <= fuel)%nat -> Forall (fun kv => py_wf (snd kv)) d ->
    read_members fuel (join "," (map emit_member d) ++ "}" :: rest)
    = Some (d, rest).
Proof.
  induction 1 as [|[k x] d Hx Hd IH]; [congruence|].
  intros _ fuel rest Hfuel Hwf.
  apply Forall_cons in Hwf. destruct Hwf as [Hwx Hwd].
  simpl in Hfuel, Hx, Hwx. destruct fuel as [|fuel]; [lia|].
  rewrite read_members_S.
  assert (Hmember : forall tail,
             emit_member (k, x) ++ tail
             = "034" :: flat_map escape (list_ascii_of_string k)
                 ++ "034" :: ":" :: emit x ++ tail).
  { intros tail. unfold emit_member, emit_string. simpl.
    rewrite <- !app_assoc. reflexivity. }
  destruct d as [|kv d].
  - simpl join. rewrite Hmember.
    change (peek "034" ("034" :: ?r)) with (Some r). cbv beta iota.
    rewrite read_string_escape.
    change (peek ":" (":" :: ?r)) with (Some r). cbv beta iota.
    rewrite Hx; [| lia | assumption | simpl; auto].
    rewrite string_of_list_ascii_of_string. reflexivity.
  - change (join "," (map emit_member ((k, x) :: kv :: d)))
      with (emit_member (k, x) ++ "," :: join "," (map emit_member (kv :: d))).
    rewrite <- app_assoc, Hmember.
    change (peek "034" ("034" :: ?r)) with (Some r). cbv beta iota.
    rewrite read_string_escape.
    change (peek ":" (":" :: ?r)) with (Some r). cbv beta iota.
    simpl app.
    rewrite Hx; [| lia | assumption | simpl; auto].
    change (peek "," ("," :: ?r)) with (Some r). cbv beta iota.
    rewrite IH; [| congruence | | assumption].
    + rewrite string_of_list_ascii_of_string. reflexivity.
    + fold (need_members (kv :: d)) in Hfuel. lia.
Qed.

Lemma emit_dict (d : list (string * pyval)) :
  emit (PDict d) = "{" :: join "," (map emit_member d) ++ ["}"].
Proof. reflexivity. Qed.

Lemma emit_list (l : list pyval) :
  emit (PList l) = "[" :: join "," (map emit l) ++ ["]"].
Proof. reflexivity. Qed.

Lemma read_value_emit (v : pyval) : reads_back v.
Proof.
  induction v as [| b | z | s | l IH | d IH] using pyval_nested_ind;
    intros fuel rest Hfuel Hwf Hrest;
    (destruct fuel as [|fuel]; [simpl in Hfuel; lia|]).
  - reflexivity.
  - destruct b; reflexivity.
  - simpl emit. unfold emit_int.
    pose proof (to_int_nonnil z) as Hz. pose proof (DecimalZ.of_to z) as Hback.
    pose proof (to_int_canonical z) as Hcanon.
    destruct (Z.to_int z) as [u|u].
    + destruct (emit_uint_opens u Hz) as (c & tl & Hu & Hc).
      assert (Hd : digit_char c <> None).
      { destruct u; try congruence; simpl in Hu; injection Hu as <- _;
          discriminate. }
      rewrite Hu. simpl app. rewrite read_value_digit by exact Hd.
      change (c :: tl ++ rest) with ((c :: tl) ++ rest). rewrite <- Hu.
      rewrite read_number_emit_uint by assumption. rewrite Hback. reflexivity.
    + simpl app. rewrite read_value_minus.
      rewrite read_number_emit_uint by assumption. rewrite Hback. reflexivity.
  - simpl emit. unfold emit_string. simpl app. rewrite <- app_assoc.
    rewrite read_value_quote. simpl app. rewrite read_string_escape.
    rewrite string_of_list_ascii_of_string. reflexivity.
  - rewrite need_list in Hfuel. apply py_wf_list in Hwf.
    rewrite emit_list. simpl app. rewrite <- app_assoc. simpl app.
    rewrite read_value_open_list.
    destruct l as [|x l]; [reflexivity|].
    change (join "," (map emit (x :: l)))
      with (join "," (emit x :: map emit l)).
    assert (Hpeek : peek "]" (join "," (emit x :: map emit l) ++ "]" :: rest)
                    = None).
    { destruct (map emit l); simpl join; [|rewrite <- app_assoc];
        apply peek_close_emit. }
    rewrite Hpeek.
    change (join "," (emit x :: map emit l))
      with (join "," (map emit (x :: l))).
    rewrite read_elems_emit; [reflexivity | assumption | congruence | lia
                             | assumption].
  - rewrite need_dict in Hfuel. apply py_wf_dict in Hwf.
    destruct Hwf as [Hnd Hwf].
    rewrite emit_dict. simpl app. rewrite <- app_assoc. simpl app.
    rewrite read_value_open_dict.
    destruct d as [|kv d]; [reflexivity|].
    assert (Hpeek : peek "}" (join "," (map emit_member (kv :: d))
                                ++ "}" :: rest) = None).
    { simpl map. destruct (map emit_member d); simpl join;
        [|rewrite <- app_assoc]; unfold emit_member, emit_string; reflexivity. }
    rewrite Hpeek.
    rewrite read_members_emit; [| assumption | congruence | lia | assumption].
    rewrite dict_of_items_nodup by assumption. reflexivity.
Qed.

Lemma join_length_elems (l : list pyval) :
  Forall (fun v => (need v <= length (emit v))%nat) l ->
  (need_elems l <= S (length (join "," (map emit l))))%nat.
Proof.
  induction 1 as [|x l Hx Hl IH]; [simpl; lia|].
  destruct l as [|y l]; [simpl in *; lia|].
  change (join "," (map emit (x :: y :: l)))
    with (emit x ++ "," :: join "," (map emit (y :: l))).
  rewrite length_app, length_cons.
  change (need_elems (x :: y :: l)) with (S (need x + need_elems (y :: l))).
  lia.
Qed.

Lemma join_length_members (d : list (string * pyval)) :
  Forall (fun kv => (need (snd kv) <= length (emit (snd kv)))%nat) d ->
  (need_members d <= S (length (join "," (map emit_member d))))%nat.
Proof.
  assert (Hm : forall kv, (length (emit (snd kv)) < length (emit_member kv))%nat).
  { intros kv. unfold emit_member. rewrite length_app. simpl. lia. }
  induction 1 as [|x l Hx Hl IH]; [simpl; lia|].
  pose proof (Hm x).
  destruct l as [|y l]; [simpl in *; lia|].
  change (join "," (map emit_member (x :: y :: l)))
    with (emit_member x ++ "," :: join "," (map emit_member (y :: l))).
  rewrite length_app, length_cons.
  change (need_members (x :: y :: l))
    with (S (need (snd x) + need_members (y :: l))).
  lia.
Qed.

Lemma need_le_length (v : pyval) : (need v <= length (emit v))%nat.
Proof.
  induction v as [| b | z | s | l IH | d IH] using pyval_nested_ind.
  - simpl. lia.
  - destruct b; simpl; lia.
  - destruct (emit_opens (PInt z)) as (c & tl & -> & _). simpl. lia.
  - simpl. lia.
  - rewrite need_list, emit_list. simpl length. rewrite length_app.
    pose proof (join_length_elems l IH). simpl length. lia.
  - rewrite need_dict, emit_dict. simpl length. rewrite length_app.
    pose proof (join_length_members d IH). simpl length. lia.
Qed.

(** [ujson.loads(ujson.dumps(v)) == v] *)
Lemma loads_dumps (v : pyval) : py_wf v -> loads (dumps v) = Parsed v.
Proof.
  intros Hwf. unfold loads, read_text, dumps. cbv zeta.
  rewrite list_ascii_of_string_of_list_ascii.
  pose proof (read_value_emit v (S (length (emit v))) []) as Hread.
  rewrite app_nil_r in Hread.
  rewrite Hread; [reflexivity | | assumption | exact I].
  pose proof (need_le_length v). lia.
Qed.
End JsonFacts.

(** ** Running programs *)

Lemma server_eta (srv : Redis.server) :
  Redis.Server (Redis.db srv) (Redis.uuids srv) (Redis.drawn srv) = srv.
Proof. destruct srv; reflexivity. Qed.

Lemma session_data_wf (session : Session) :
  Session_wf session ->
  session_data session
  = (fun kv => (fst kv, str_or_dumps (snd kv))) <$> vars session.
Proof.
  intros Hwf. unfold session_data. apply dict_of_items_nodup.
  rewrite <- list_fmap_compose. exact Hwf.
Qed.

Lemma session_data_key (session : Session) :
  Session_wf session ->
  dict_get "session_id" (session_data session)
  = Some (str_or_dumps (session_id session)).
Proof. intros Hwf. rewrite session_data_wf by assumption. reflexivity. Qed.

(** ** Session writes *)

Section AnyStore.

Context {S : Type} `{Env S}.

(** C6.  For a session object and a ttl, [save_session] sends the hash
    write [HMSET] under the (serialized) session id, carrying every
    attribute of the session, strings as they are and other values
    JSON-encoded; a falsy reply to it is a [RedisClientError]; otherwise
    it sends [EXPIRE] with the ttl for the same key; a falsy reply to that
    is a [RedisClientError]; otherwise it returns the session's id.  An
    error of the store at either call is a [RedisClientError] too. *)
Theorem save_session_writes_then_expires
  (session : Session) (ex : Z) (st : S) :
  Session_wf session ->
  let key := str_or_dumps (session_id session) in
  let data := (fun kv => (fst kv, str_or_dumps (snd kv))) <$> vars session in
  match redis_db (HMSET key data) st with
  | (inl e, st1) =>
      exec (save_session session ex) st
      = (Raises (RedisClientError e), st1, [Issued (HMSET key data)])
  | (inr false, st1) =>
      exec (save_session session ex) st
      = (Raises (RedisClientError
                   ("save session failed, session_id=" +:+ key)),
         st1, [Issued (HMSET key data)])
  | (inr true, st1) =>
      match redis_db (EXPIRE key ex) st1 with
      | (inl e, st2) =>
          exec (save_session session ex) st
          = (Raises (RedisClientError e), st2,
             [Issued (HMSET key data); Issued (EXPIRE key ex)])
      | (inr false, st2) =>
          exec (save_session session ex) st
          = (Raises (RedisClientError
                       ("set session expire failed, session_id=" +:+ key)),
             st2, [Issued (HMSET key data); Issued (EXPIRE key ex)])
      | (inr true, st2) =>
          exec (save_session session ex) st
          = (Returns (session_id session), st2,
             [Issued (HMSET key data); Issued (EXPIRE key ex)])
      end
  end.
Proof.
  intros Hwf key data. unfold save_session, subscript.
  rewrite session_data_key, session_data_wf by assumption.
  fold key data. unfold await. simpl exec.
  destruct (redis_db (HMSET key data) st) as [[e|[]] st1]; simpl;
    try reflexivity.
  destruct (redis_db (EXPIRE key ex) st1) as [[e|[]] st2]; reflexivity.
Qed.

(** C7, as the code has it.  For a session object and a ttl,
    [update_session] makes the same store calls as [save_session], the
    first of them the hash write (nothing is read or checked before it),
    and leaves the same state; one returns exactly when the other does,
    [save_session] with the session's id and [update_session] with
    [None]; both raise [RedisClientError] otherwise, with the same
    message except when the hash write was answered with a falsy reply,
    where one says "save" and the other "update". *)
Theorem update_session_same_writes
  (session : Session) (ex : Z) (st : S) :
  Session_wf session ->
  let key := str_or_dumps (session_id session) in
  trace (update_session session ex) st = trace (save_session session ex) st
  /\ final (update_session session ex) st = final (save_session session ex) st
  /\ (exists data rest,
         trace (update_session session ex) st = Issued (HMSET key data) :: rest)
  /\ match result (save_session session ex) st,
           result (update_session session ex) st with
     | Returns a, Returns b => a = session_id session /\ b = PNone
     | Raises (RedisClientError m1), Raises (RedisClientError m2) =>
         m1 = m2 \/
         (m1 = "save session failed, session_id=" +:+ key /\
          m2 = "update session failed, session_id=" +:+ key)
     | _, _ => False
     end.
Proof.
  intros Hwf key. unfold trace, final, result, save_session, update_session,
    subscript.
  rewrite session_data_key by assumption. fold key.
  unfold await. simpl exec.
  destruct (redis_db (HMSET key (session_data session)) st) as [[e|[]] st1];
    simpl; eauto 10.
  destruct (redis_db (EXPIRE key ex) st1) as [[e|[]] st2]; simpl; eauto 10.
Qed.

(** C5.  [delete_session] first reads the field [session_id] of the hash
    stored under the requested id.  When what it reads is not the
    requested id (another value, or nothing) it raises the mismatch
    [RedisClientError] and sends no deletion; when it is, it deletes the
    key and raises a [RedisClientError] if the store reports zero keys
    removed. *)
Theorem delete_session_checks_then_deletes (session_id : string) (st : S) :
  match redis_db (HGET session_id "session_id") st with
  | (inl e, st1) =>
      exec (delete_session session_id) st
      = (Raises (RedisClientError e), st1,
         [Issued (HGET session_id "session_id")])
  | (inr stored, st1) =>
      if bool_decide (stored = Some session_id) then
        match redis_db (DELETE [session_id]) st1 with
        | (inl e, st2) =>
            exec (delete_session session_id) st
            = (Raises (RedisClientError e), st2,
               [Issued (HGET session_id "session_id");
                Issued (DELETE [session_id])])
        | (inr n, st2) =>
            exec (delete_session session_id) st
            = (if n =? 0
               then Raises (RedisClientError
                              ("delete session failed, session_id="
                                 +:+ session_id))
               else Returns PNone,
               st2,
               [Issued (HGET session_id "session_id");
                Issued (DELETE [session_id])])
        end
      else
        exec (delete_session session_id) st
        = (Raises (RedisClientError
                     ("invalid session_id, session_id=" +:+ session_id)),
           st1, [Issued (HGET session_id "session_id")])
  end.
Proof.
  unfold delete_session, await. simpl exec.
  destruct (redis_db (HGET session_id "session_id") st) as [[e|stored] st1];
    simpl; [reflexivity|].
  destruct (bool_decide (stored = Some session_id)); simpl; [|reflexivity].
  destruct (redis_db (DELETE [session_id]) st1) as [[e|n] st2]; simpl;
    [reflexivity|].
  destruct (n =? 0); reflexivity.
Qed.

(** C2, as the code has it.  When [hash_data] is not a mapping,
    [save_update_hash_data] raises [ValueError] (not the client's error
    class) without calling the store, whose state is untouched. *)
Theorem save_update_hash_data_rejects_non_mapping
  (py_str : pyval -> string) (name : string) (hash_data : pyval) (ex : Z)
  (st : S) :
  is_mapping hash_data = false ->
  exec (save_update_hash_data py_str name hash_data ex) st
  = (Raises (ValueError "hash data error, must be MutableMapping."), st, []).
Proof. destruct hash_data; simpl; intros Hm; (reflexivity || discriminate). Qed.

End AnyStore.

(** ** On the Redis server *)

Section OnRedis.

Import Redis.

Lemma lrange_all (l : list string) : lrange l 0 (-1) = l.
Proof.
  unfold lrange. simpl.
  destruct l as [|x l]; [reflexivity|].
  set (n := Z.of_nat (length (x :: l))).
  assert (Hn : 0 < n) by (unfold n; simpl length; lia).
  replace (n + -1 <? 0) with false by (symmetry; apply Z.ltb_ge; lia).
  replace (n <=? 0) with false by (symmetry; apply Z.leb_gt; lia).
  replace (n <=? n + -1) with false by (symmetry; apply Z.leb_gt; lia).
  simpl orb. cbv iota.
  replace (Z.to_nat (n + -1 - 0 + 1)) with (length (x :: l)) by (unfold n; lia).
  change (Z.to_nat 0) with 0%nat. rewrite drop_0. apply firstn_all.
Qed.

(** C4.  When nothing is stored under [session_id], [get_session] raises
    the not-found [RedisClientError] after its read of the hash, and the
    server is as it was. *)
Theorem get_session_absent_not_found
  (srv : server) (session_id : string) (ex : Z) :
  db srv !! session_id = None ->
  exec (get_session session_id ex) srv
  = (Raises (RedisClientError
               ("not found session, session_id=" +:+ session_id)),
     srv, [Issued (HGETALL session_id)]).
Proof.
  intros Habs. unfold get_session, await. simpl. unfold handle. simpl.
  rewrite Habs. simpl. rewrite server_eta. reflexivity.
Qed.

(** C9.  When nothing is stored under [name], each of [get_hash_data],
    [get_list_data] and [get_usual_data] raises the [RedisClientError] of a
    failed expiration refresh, whatever the field, the range and the ttl;
    none returns, and the server is as it was. *)
Theorem getters_absent_key_raise
  (py_str : pyval -> string) (srv : server) (name : string)
  (field_name : pyval) (start stop ex : Z) :
  db srv !! name = None ->
  let failed {A : Type} : outcome A :=
    Raises (RedisClientError ("set expire failed, name=" +:+ name)) in
  (result (get_hash_data py_str name field_name ex) srv = failed
   /\ final (get_hash_data py_str name field_name ex) srv = srv)
  /\ (result (get_list_data name start stop ex) srv = failed
      /\ final (get_list_data name start stop ex) srv = srv)
  /\ (result (get_usual_data name ex) srv = failed
      /\ final (get_usual_data name ex) srv = srv).
Proof.
  intros Habs failed. unfold result, final.
  unfold get_hash_data, get_list_data, get_usual_data, expire_then, await.
  repeat split; try destruct (truthy field_name);
    repeat (progress (simpl; unfold handle; simpl; rewrite ?Habs, ?server_eta));
    reflexivity.
Qed.

(** C10.  On a key that holds a hash, [get_hash_data] with a falsy
    [field_name] ([None], the empty string, ..) asks for the entire hash and
    returns it, also when the hash has a field of that very name; only a
    truthy [field_name] asks for the single field. *)
Theorem get_hash_data_falsy_field_fetches_all
  (py_str : pyval -> string) (srv : server) (name : string)
  (h : list (string * string)) (t : option Z) (field_name : pyval) (ex : Z) :
  db srv !! name = Some (Entry (RHash h) t) ->
  (truthy field_name = false ->
   result (get_hash_data py_str name field_name ex) srv
   = Returns (PDict (py_items h))
   /\ trace (get_hash_data py_str name field_name ex) srv
      = [Issued (HGETALL name); Issued (EXPIRE name ex)])
  /\ (truthy field_name = true ->
      result (get_hash_data py_str name field_name ex) srv
      = Returns (py_opt (dict_get (encode py_str field_name) h))
      /\ trace (get_hash_data py_str name field_name ex) srv
         = [Issued (HGET name (encode py_str field_name));
            Issued (EXPIRE name ex)]).
Proof.
  intros Hh. unfold result, trace, get_hash_data, expire_then, await.
  split; intros ->;
    repeat (progress (simpl; unfold handle; simpl; rewrite ?Hh));
    destruct (ex <=? 0); split; reflexivity.
Qed.

Ltac on_redis :=
  repeat (progress (simpl; unfold handle; simpl;
                    rewrite ?lookup_insert_eq, ?server_eta)).

Lemma encode_strs (py_str : pyval -> string) (xs : list string) :
  encode py_str <$> (PStr <$> xs) = xs.
Proof.
  induction xs as [|x xs IH]; [reflexivity|].
  rewrite !fmap_cons, IH. reflexivity.
Qed.

(** C8.  Starting from a server where [name] is absent, once
    [save_list_data] has pushed a sequence of strings (with a positive ttl,
    as the default is), [get_list_data name 0 (-1)] returns them in reverse
    order if they were pushed to the left and in their order otherwise; and
    a single string is the same call as the one-element sequence of it. *)
Theorem save_list_data_then_get_list_data
  (py_str : pyval -> string) (srv : server) (name : string)
  (xs : list string) (s : string) (save_to_left : bool) (ex ex' : Z) :
  db srv !! name = None ->
  0 < ex ->
  result (save_list_data py_str name (PList (PStr <$> xs)) save_to_left ex) srv
  = Returns (PStr name) ->
  result (get_list_data name 0 (-1) ex')
    (final (save_list_data py_str name (PList (PStr <$> xs)) save_to_left ex)
       srv)
  = Returns (py_strs (if save_to_left then rev xs else xs))
  /\ save_list_data py_str name (PStr s) save_to_left ex
     = save_list_data py_str name (PList [PStr s]) save_to_left ex.
Proof.
  intros Habs Hex Hsaved. split; [|reflexivity].
  assert (Hpos : (ex <=? 0) = false) by (apply Z.leb_gt; exact Hex).
  revert Hsaved.
  unfold result, final, save_list_data, get_list_data, expire_then, await.
  simpl star. cbv iota. rewrite encode_strs.
  destruct xs as [|x xs]; destruct save_to_left;
    on_redis; rewrite ?Habs; try discriminate; intros _;
    on_redis; rewrite Hpos; on_redis;
    destruct (ex' <=? 0); simpl; rewrite lrange_all; reflexivity.
Qed.

(** Non-empty sequences are pushed: the premise of C8 holds for them. *)
Lemma save_list_data_pushes
  (py_str : pyval -> string) (srv : server) (name : string)
  (xs : list string) (save_to_left : bool) (ex : Z) :
  db srv !! name = None -> xs <> [] ->
  result (save_list_data py_str name (PList (PStr <$> xs)) save_to_left ex) srv
  = Returns (PStr name).
Proof.
  intros Habs Hxs.
  unfold result, save_list_data, expire_then, await.
  simpl star. cbv iota. rewrite encode_strs.
  destruct xs as [|x xs]; [congruence|].
  destruct save_to_left; on_redis; rewrite ?Habs; on_redis;
    destruct (ex <=? 0); reflexivity.
Qed.

(** Later pushes keep the order: on a key that already holds a list, the
    new strings go in front of it, reversed, or behind it, in their order. *)
Lemma save_list_data_extends
  (py_str : pyval -> string) (srv : server) (name : string)
  (l : list string) (t : option Z) (xs : list string) (save_to_left : bool)
  (ex ex' : Z) :
  db srv !! name = Some (Entry (RList l) t) -> 0 < ex -> xs <> [] ->
  result (get_list_data name 0 (-1) ex')
    (final (save_list_data py_str name (PList (PStr <$> xs)) save_to_left ex)
       srv)
  = Returns (py_strs (if save_to_left then rev xs ++ l else l ++ xs)).
Proof.
  intros Hl Hex Hxs.
  assert (Hpos : (ex <=? 0) = false) by (apply Z.leb_gt; exact Hex).
  unfold result, final, save_list_data, get_list_data, expire_then, await.
  simpl star. cbv iota. rewrite encode_strs.
  destruct xs as [|x xs]; [congruence|].
  destruct save_to_left; on_redis; rewrite ?Hl; on_redis.
  - assert (Hlen' : (Z.of_nat (length ((rev xs ++ [x]) ++ l)) =? 0) = false)
      by (apply Z.eqb_neq; rewrite !length_app; simpl length; lia).
    rewrite Hlen'. on_redis. rewrite Hpos. on_redis.
    destruct (ex' <=? 0); simpl; rewrite lrange_all; reflexivity.
  - assert (Hlen' : (Z.of_nat (length (l ++ x :: xs)) =? 0) = false)
      by (apply Z.eqb_neq; rewrite length_app; simpl length; lia).
    rewrite Hlen'. on_redis. rewrite Hpos. on_redis.
    destruct (ex' <=? 0); simpl; rewrite lrange_all; reflexivity.
Qed.


(** What [save_session] leaves on the server for a new session. *)
Lemma save_session_stored (srv : server) (session : Session) (ex : Z) :
  Session_wf session ->
  db srv !! str_or_dumps (session_id session) = None ->
  0 < ex ->
  result (save_session session ex) srv = Returns (session_id session)
  /\ db (final (save_session session ex) srv)
       !! str_or_dumps (session_id session)
     = Some (Entry (RHash ((fun kv => (fst kv, str_or_dumps (snd kv)))
                             <$> vars session)) (Some ex)).
Proof.
  intros Hwf Habs Hex.
  assert (Hpos : (ex <=? 0) = false) by (apply Z.leb_gt; exact Hex).
  unfold result, final, save_session, subscript.
  rewrite session_data_key, session_data_wf by assumption.
  set (key := str_or_dumps (session_id session)) in *.
  assert (Hdata : forall data, data = (fun kv => (fst kv, str_or_dumps (snd kv)))
                                 <$> vars session -> hash_update [] data = data).
  { intros data ->. apply dict_of_items_nodup.
    rewrite <- list_fmap_compose. exact Hwf. }
  unfold await. on_redis. rewrite Habs. on_redis. rewrite Hpos. on_redis.
  split; [reflexivity|]. do 3 f_equal. exact (Hdata _ eq_refl).
Qed.

End OnRedis.

(** ** Reading a session back *)

Lemma loads_unless_str_items (m : list (string * string)) :
  loads_unless_str (py_items m) = Returns (py_items m).
Proof.
  induction m as [|[k v] m IH]; [reflexivity|].
  change (py_items ((k, v) :: m)) with ((k, PStr v) :: py_items m).
  simpl. rewrite IH. reflexivity.
Qed.

Lemma find_given_twice {V : Type} (names : list string) (k : string) (v : V)
  (d : list (string * V)) :
  dict_get k d = Some v -> k ∈ names ->
  find (fun kv => bool_decide (fst kv ∈ names)) d <> None.
Proof.
  intros Hget Hk. induction d as [|[k' v'] d IH]; simpl in *; [discriminate|].
  destruct (bool_decide (k' ∈ names)) eqn:Hk'; [discriminate|].
  destruct (String.eqb_spec k k') as [->|_].
  - apply bool_decide_eq_false in Hk'. contradiction.
  - apply IH. exact Hget.
Qed.

Lemma Session_call_given_twice (named mapping : list (string * pyval))
  (k : string) (v : pyval) :
  dict_get k mapping = Some v -> k ∈ map fst named ->
  exists msg, Session_call named mapping = Raise (TypeError msg).
Proof.
  intros Hget Hk. unfold Session_call.
  pose proof (find_given_twice (map fst named) k v mapping Hget Hk) as Hfind.
  destruct (find _ mapping) as [[k' v']|]; [eauto | congruence].
Qed.

(** [get_session] never returns a session: whatever the store answers, the
    call of [Session] is given [session_id] twice, by name and in the
    mapping, when it is reached at all. *)
Lemma get_session_never_returns {S : Type} `{Env S}
  (session_id : string) (ex : Z) (st : S) (session : Session) :
  result (get_session session_id ex) st <> Returns session.
Proof.
  unfold result, get_session, await. simpl exec.
  destruct (redis_db (HGETALL session_id) st) as [[e|data] st1]; simpl;
    [discriminate|].
  destruct data as [|kv data]; simpl; [discriminate|].
  destruct (redis_db (EXPIRE session_id ex) st1) as [[e|[]] st2]; simpl;
    try discriminate.
  change ((kv.1, PStr kv.2) :: py_items data) with (py_items (kv :: data)).
  rewrite loads_unless_str_items.
  unfold subscript.
  destruct (dict_get "user_id" _); [|discriminate].
  destruct (dict_get "session_id" _) as [sid|] eqn:Hsid; [|discriminate].
  destruct (dict_get "org_id" _); [|discriminate].
  destruct (dict_get "permission_id" _); [|discriminate].
  edestruct Session_call_given_twice as [msg ->]; [exact Hsid | | discriminate].
  simpl. set_solver.
Qed.

(** ** Concrete runs *)

Lemma alice_wf : Session_wf alice.
Proof. apply (bool_decide_unpack _). vm_compute. exact I. Qed.

(** C1.  Saving the session of [alice] on an empty server succeeds, and
    reading it back with the id that was returned does not give a session:
    the call of [Session] raises [TypeError]. *)
Theorem get_session_after_save_session_raises :
  result (save_session alice EXPIRED) empty_server = Returns (PStr "s1")
  /\ result (get_session "s1" EXPIRED)
       (final (save_session alice EXPIRED) empty_server)
     = Raises (TypeError
                 "__init__() got multiple values for keyword argument 'session_id'").
Proof. split; vm_compute; reflexivity. Qed.

(** The values of a stored session are never decoded: they all come from
    the store as [str]. *)
Example stored_age_stays_a_string :
  loads_unless_str
    (py_items [("user_id", "u1"); ("age", Json.dumps (PInt 30))])
  = Returns [("user_id", PStr "u1"); ("age", PStr "30")].
Proof. reflexivity. Qed.

Lemma save_session_writes_then_expires_witness :
  Session_wf alice
  /\ exists st2,
      exec (save_session alice EXPIRED) empty_server
      = (Returns (PStr "s1"), st2,
         [Issued (HMSET "s1"
                    [("user_id", "u1"); ("session_id", "s1"); ("org_id", "o1");
                     ("permission_id", "p1"); ("age", "30")]);
          Issued (EXPIRE "s1" 86400)]).
Proof.
  split; [exact alice_wf|]. eexists.
  exact (save_session_writes_then_expires alice EXPIRED empty_server alice_wf).
Defined.

(** Against a store that refuses the write, [save_session] stops there. *)
Example save_session_refused :
  @exec unit refusing_env _ (save_session alice EXPIRED) tt
  = (Raises (RedisClientError "save session failed, session_id=s1"), tt,
     [Issued (HMSET "s1"
                [("user_id", "u1"); ("session_id", "s1"); ("org_id", "o1");
                 ("permission_id", "p1"); ("age", "30")])]).
Proof. reflexivity. Qed.

(** Against a store that loses the key between the two calls,
    [delete_session] reports the failed deletion. *)
Example delete_session_nothing_removed :
  @exec unit refusing_env _ (delete_session "s1") tt
  = (Raises (RedisClientError "delete session failed, session_id=s1"), tt,
     [Issued (HGET "s1" "session_id"); Issued (DELETE ["s1"])]).
Proof. reflexivity. Qed.

(** On the server, an id that was never saved is a mismatch and nothing is
    deleted. *)
Example delete_session_mismatch :
  exec (delete_session "h") hash_server
  = (Raises (RedisClientError "invalid session_id, session_id=h"),
     hash_server, [Issued (HGET "h" "session_id")]).
Proof. vm_compute. reflexivity. Qed.

(** C7, counterexample: on an empty server [save_session] returns the id
    of [alice] and [update_session] returns [None]. *)
Lemma update_session_result_differs :
  result (update_session alice EXPIRED) empty_server
  <> result (save_session alice EXPIRED) empty_server.
Proof. vm_compute. discriminate. Qed.

Lemma update_session_same_writes_witness :
  Session_wf alice
  /\ trace (update_session alice EXPIRED) empty_server
     = trace (save_session alice EXPIRED) empty_server
  /\ final (update_session alice EXPIRED) empty_server
     = final (save_session alice EXPIRED) empty_server.
Proof.
  split; [exact alice_wf|].
  pose proof (update_session_same_writes alice EXPIRED empty_server alice_wf)
    as (Htrace & Hfinal & _).
  split; [exact Htrace | exact Hfinal].
Defined.

(** C2, counterexample: given a list, [save_update_hash_data] does not
    raise the client's error class. *)
Lemma save_update_hash_data_list_not_client_error :
  ~ is_client_error
      (result (save_update_hash_data (fun _ => "") "k" (PList []) EXPIRED)
         empty_server).
Proof. simpl. intros []. Qed.

Lemma save_update_hash_data_rejects_non_mapping_witness :
  is_mapping (PList []) = false
  /\ exec (save_update_hash_data (fun _ => "") "k" (PList []) EXPIRED)
       empty_server
     = (Raises (ValueError "hash data error, must be MutableMapping."),
        empty_server, []).
Proof.
  split; [reflexivity|].
  apply (save_update_hash_data_rejects_non_mapping
           (fun _ => "") "k" (PList []) EXPIRED empty_server).
  reflexivity.
Defined.



Lemma get_session_absent_not_found_witness :
  Redis.db empty_server !! "s1" = None
  /\ exec (get_session "s1" EXPIRED) empty_server
     = (Raises (RedisClientError "not found session, session_id=s1"),
        empty_server, [Issued (HGETALL "s1")]).
Proof.
  split; [reflexivity|].
  apply (get_session_absent_not_found empty_server "s1" EXPIRED). reflexivity.
Defined.

Lemma getters_absent_key_raise_witness :
  Redis.db empty_server !! "k" = None
  /\ result (get_hash_data (fun _ => "") "k" PNone EXPIRED) empty_server
     = Raises (RedisClientError "set expire failed, name=k")
  /\ result (get_list_data "k" 0 (-1) EXPIRED) empty_server
     = Raises (RedisClientError "set expire failed, name=k")
  /\ result (get_usual_data "k" EXPIRED) empty_server
     = Raises (RedisClientError "set expire failed, name=k").
Proof.
  split; [reflexivity|].
  pose proof (getters_absent_key_raise (fun _ => "") empty_server "k" PNone
                0 (-1) EXPIRED eq_refl) as Hall.
  cbv zeta in Hall. destruct Hall as ((Hh & _) & (Hl & _) & (Hu & _)).
  split; [exact Hh | split; [exact Hl | exact Hu]].
Defined.

Lemma get_hash_data_falsy_field_fetches_all_witness :
  (Redis.db hash_server !! "h"
   = Some (Redis.Entry (Redis.RHash [("", "blank"); ("a", "b")]) None)
   /\ truthy (PStr "") = false /\ truthy (PStr "a") = true)
  /\ result (get_hash_data (fun _ => "") "h" (PStr "") EXPIRED) hash_server
     = Returns (PDict [("", PStr "blank"); ("a", PStr "b")])
  /\ result (get_hash_data (fun _ => "") "h" (PStr "a") EXPIRED) hash_server
     = Returns (PStr "b").
Proof.
  assert (Hh : Redis.db hash_server !! "h"
               = Some (Redis.Entry (Redis.RHash [("", "blank"); ("a", "b")])
                         None)) by (vm_compute; reflexivity).
  split; [split; [exact Hh | split; reflexivity]|].
  split.
  - exact (proj1 (proj1 (get_hash_data_falsy_field_fetches_all
                           (fun _ => "") hash_server "h" _ None (PStr "")
                           EXPIRED Hh) eq_refl)).
  - exact (proj1 (proj2 (get_hash_data_falsy_field_fetches_all
                           (fun _ => "") hash_server "h" _ None (PStr "a")
                           EXPIRED Hh) eq_refl)).
Defined.

Lemma save_list_data_then_get_list_data_witness :
  (Redis.db empty_server !! "k" = None /\ 0 < EXPIRED
   /\ result (save_list_data (fun _ => "") "k"
                (PList (PStr <$> ["a"; "b"; "c"])) true EXPIRED) empty_server
      = Returns (PStr "k"))
  /\ result (get_list_data "k" 0 (-1) EXPIRED)
       (final (save_list_data (fun _ => "") "k"
                 (PList (PStr <$> ["a"; "b"; "c"])) true EXPIRED) empty_server)
     = Returns (PList [PStr "c"; PStr "b"; PStr "a"]).
Proof.
  split; [split; [reflexivity | split; [reflexivity | vm_compute; reflexivity]]|].
  apply (save_list_data_then_get_list_data (fun _ => "") empty_server "k"
           ["a"; "b"; "c"] "" true EXPIRED EXPIRED);
    vm_compute; reflexivity.
Defined.

(** Pushed to the right, the elements come back in their order. *)
Example save_list_data_right :
  result (get_list_data "k" 0 (-1) EXPIRED)
    (final (save_list_data (fun _ => "") "k"
              (PList [PStr "a"; PStr "b"; PStr "c"]) false EXPIRED)
       empty_server)
  = Returns (PList [PStr "a"; PStr "b"; PStr "c"]).
Proof. vm_compute. reflexivity. Qed.

(** * The rest of the client *)

(** ** Running composed programs *)

Lemma exec_bind {S : Type} `{Env S} {A B : Type} (p : prog A)
  (f : A -> prog B) (st : S) :
  exec (bind p f) st
  = match exec p st with
    | (Returns a, st1, tr1) =>
        let '(o, st2, tr2) := exec (f a) st1 in (o, st2, tr1 ++ tr2)
    | (Raises e, st1, tr1) => (Raises e, st1, tr1)
    end.
Proof.
  revert st. induction p as [a|e|R c k IH|k IH]; intros st; simpl.
  - destruct (exec (f a) st) as [[o st2] tr2]. reflexivity.
  - reflexivity.
  - destruct (redis_db c st) as [r st1]. rewrite IH.
    destruct (exec (k r) st1) as [[[a|e] st2] tr]; [|reflexivity].
    destruct (exec (f a) st2) as [[o st3] tr2]. reflexivity.
  - destruct (uuid4_hex st) as [u st1]. apply IH.
Qed.

Lemma exec_try_except_raise {S : Type} `{Env S} {A : Type} (p : prog A)
  (h : exn -> prog A) (f : exn -> exn) (st : S) :
  (forall e, h e = Raise (f e)) ->
  exec (try_except p h) st
  = match exec p st with
    | (Raises e, st1, tr) => (Raises (f e), st1, tr)
    | run => run
    end.
Proof.
  intros Hh. revert st. induction p as [a|e|R c k IH|k IH]; intros st; simpl.
  - reflexivity.
  - rewrite Hh. reflexivity.
  - destruct (redis_db c st) as [r st1]. rewrite IH.
    destruct (exec (k r) st1) as [[[a|e] st2] tr]; reflexivity.
  - destruct (uuid4_hex st) as [u st1]. apply IH.
Qed.

Lemma get_session_outcome {S : Type} `{Env S}
  (session_id : string) (ex : Z) (st : S) :
  exists e, result (get_session session_id ex) st = Raises e.
Proof.
  unfold result, get_session, await. simpl exec.
  destruct (redis_db (HGETALL session_id) st) as [[e|data] st1]; simpl;
    [eauto|].
  destruct data as [|kv data]; simpl; [eauto|].
  destruct (redis_db (EXPIRE session_id ex) st1) as [[e|[]] st2]; simpl;
    eauto.
  change ((kv.1, PStr kv.2) :: py_items data) with (py_items (kv :: data)).
  rewrite loads_unless_str_items.
  unfold subscript.
  destruct (dict_get "user_id" _); [|simpl; eauto].
  destruct (dict_get "session_id" _) as [sid|] eqn:Hsid; [|simpl; eauto].
  destruct (dict_get "org_id" _); [|simpl; eauto].
  destruct (dict_get "permission_id" _); [|simpl; eauto].
  edestruct Session_call_given_twice as [msg ->];
    [exact Hsid | | simpl; eauto].
  simpl. set_solver.
Qed.

(** [verify] never returns a session: its [get_session] always fails,
    with some exception [e], and [verify] then fails after the same
    store calls and in the same final state.  What it raises is [e] itself,
    unless [e] is the client's error: that one is raised anew around
    [str(e)].  Its own comparison of the two ids is never reached. *)
Theorem verify_fails_as_get_session {S : Type} `{Env S}
  (error_str : string -> string) (session_id : string) (st : S) :
  exists e,
    exec (get_session session_id EXPIRED) st
    = (Raises e, final (get_session session_id EXPIRED) st,
       trace (get_session session_id EXPIRED) st)
    /\ exec (verify error_str session_id) st
       = (Raises (raised_anew error_str e),
          final (get_session session_id EXPIRED) st,
          trace (get_session session_id EXPIRED) st).
Proof.
  destruct (get_session_outcome session_id EXPIRED st) as [e He].
  exists e. unfold verify, final, trace, result in *.
  rewrite exec_bind.
  rewrite (exec_try_except_raise _ _ (raised_anew error_str))
    by (intros []; reflexivity).
  destruct (exec (get_session session_id EXPIRED) st) as [[o st1] tr].
  simpl in He. subst o. split; reflexivity.
Qed.

(** ** Lookups in a merged hash *)

Lemma dict_get_set_eq {V : Type} (k : string) (v : V) (d : list (string * V)) :
  dict_get k (dict_set k v d) = Some v.
Proof.
  induction d as [|[k' v'] d IH]; simpl.
  - rewrite String.eqb_refl. reflexivity.
  - destruct (String.eqb_spec k k') as [->|Hne]; simpl.
    + rewrite String.eqb_refl. reflexivity.
    + destruct (String.eqb_spec k k'); [congruence | exact IH].
Qed.

Lemma dict_get_set_ne {V : Type} (k k' : string) (v : V)
  (d : list (string * V)) :
  k <> k' -> dict_get k (dict_set k' v d) = dict_get k d.
Proof.
  intros Hne. induction d as [|[k2 v2] d IH]; simpl.
  - destruct (String.eqb_spec k k'); [congruence | reflexivity].
  - destruct (String.eqb_spec k' k2) as [->|Hne2]; simpl.
    + destruct (String.eqb_spec k k2); [congruence | reflexivity].
    + rewrite IH. reflexivity.
Qed.

Lemma dict_get_fresh {V : Type} (k : string) (d : list (string * V)) :
  k ∉ map fst d -> dict_get k d = None.
Proof.
  induction d as [|[k' v'] d IH]; simpl; intros Hk; [reflexivity|].
  rewrite not_elem_of_cons in Hk. destruct Hk as [Hne Hk].
  destruct (String.eqb_spec k k'); [congruence | auto].
Qed.

Lemma dict_get_fmap {V W : Type} (f : V -> W) (k : string)
  (d : list (string * V)) :
  dict_get k ((fun kv => (fst kv, f (snd kv))) <$> d) = f <$> dict_get k d.
Proof.
  induction d as [|[k' v'] d IH]; [reflexivity|].
  rewrite fmap_cons. simpl. destruct (String.eqb k k'); [reflexivity | exact IH].
Qed.

Lemma dict_get_hash_update (k : string) (h mapping : list (string * string)) :
  NoDup (map fst mapping) ->
  dict_get k (Redis.hash_update h mapping)
  = match dict_get k mapping with
    | Some v => Some v
    | None => dict_get k h
    end.
Proof.
  unfold Redis.hash_update. revert h.
  induction mapping as [|[k1 v1] m IH]; intros h Hnd; [reflexivity|].
  simpl in Hnd. apply NoDup_cons in Hnd. destruct Hnd as [Hk1 Hnd].
  simpl. rewrite IH by assumption.
  destruct (String.eqb_spec k k1) as [->|Hne].
  - rewrite dict_get_fresh by assumption. apply dict_get_set_eq.
  - destruct (dict_get k m); [reflexivity|]. apply dict_get_set_ne. exact Hne.
Qed.

Lemma session_data_keys (session : Session) :
  map fst ((fun kv => (fst kv, str_or_dumps (snd kv))) <$> vars session)
  = map fst (vars session).
Proof. rewrite <- list_fmap_compose. reflexivity. Qed.

(** ** Sessions on the Redis server *)

Section SessionsOnRedis.

Import Redis.

Ltac redis_run :=
  repeat (progress (simpl; unfold handle; simpl;
                    rewrite ?lookup_insert_eq, ?server_eta)).

(** [Session(..)] keeps every id that is truthy and replaces each falsy
    one ([None], [""], [0], ..), the given ones included, by the next
    identifier drawn, in the order [session_id], [org_id],
    [permission_id]; [user_id] and the extra attributes are kept as they
    are, and the store is not called. *)
Theorem Session_init_keeps_truthy_ids
  (srv : server) (uid sid oid pid : pyval) (kwargs : list (string * pyval)) :
  let fresh (n : nat) := PStr (uuids srv (drawn srv + n)%nat) in
  let n1 := if truthy sid then 0%nat else 1%nat in
  let n2 := (n1 + if truthy oid then 0 else 1)%nat in
  let n3 := (n2 + if truthy pid then 0 else 1)%nat in
  exec (Session_init uid sid oid pid kwargs) srv
  = (Returns {| user_id := uid;
                session_id := if truthy sid then sid else fresh 0%nat;
                org_id := if truthy oid then oid else fresh n1;
                permission_id := if truthy pid then pid else fresh n2;
                extras := kwargs |},
     Server (db srv) (uuids srv) (drawn srv + n3), []).
Proof.
  unfold Session_init, or_uuid4. destruct srv as [d u n].
  destruct (truthy sid), (truthy oid), (truthy pid); simpl;
    rewrite ?Nat.add_0_r, ?Nat.add_1_r, ?(Nat.add_comm _ 2), ?(Nat.add_comm _ 3);
    reflexivity.
Qed.

End SessionsOnRedis.

(** ** The answers of the Redis server, call by call *)

Section RedisAnswers.

Import Redis.

Variable srv : server.
Variable name : string.

Lemma with_db_same : with_db srv (db srv) = srv.
Proof. apply server_eta. Qed.

Lemma hmset_absent (m : list (string * string)) :
  db srv !! name = None -> m <> [] ->
  redis_db (HMSET name m) srv
  = (inr true, with_db srv (<[name := Entry (RHash (hash_update [] m)) None]>
                              (db srv))).
Proof.
  intros Habs Hm. simpl. unfold handle. simpl. rewrite Habs.
  destruct m; [congruence | reflexivity].
Qed.

Lemma hmset_hash (h : list (string * string)) (t : option Z)
  (m : list (string * string)) :
  db srv !! name = Some (Entry (RHash h) t) -> m <> [] ->
  redis_db (HMSET name m) srv
  = (inr true, with_db srv (<[name := Entry (RHash (hash_update h m)) t]>
                              (db srv))).
Proof.
  intros Hh Hm. simpl. unfold handle. simpl. rewrite Hh.
  destruct m; [congruence | reflexivity].
Qed.

Lemma expire_missing (ex : Z) :
  db srv !! name = None -> redis_db (EXPIRE name ex) srv = (inr false, srv).
Proof.
  intros Habs. simpl. unfold handle. simpl. rewrite Habs.
  rewrite server_eta. reflexivity.
Qed.

Lemma expire_positive (v : rvalue) (t : option Z) (ex : Z) :
  db srv !! name = Some (Entry v t) -> 0 < ex ->
  redis_db (EXPIRE name ex) srv
  = (inr true, with_db srv (<[name := Entry v (Some ex)]> (db srv))).
Proof.
  intros Hv Hex. simpl. unfold handle. simpl. rewrite Hv.
  rewrite (proj2 (Z.leb_gt ex 0)) by assumption. reflexivity.
Qed.

Lemma expire_not_positive (v : rvalue) (t : option Z) (ex : Z) :
  db srv !! name = Some (Entry v t) -> ex <= 0 ->
  redis_db (EXPIRE name ex) srv = (inr true, with_db srv (delete name (db srv))).
Proof.
  intros Hv Hex. simpl. unfold handle. simpl. rewrite Hv.
  rewrite (proj2 (Z.leb_le ex 0)) by assumption. reflexivity.
Qed.

Lemma hget_hash (h : list (string * string)) (t : option Z) (key : string) :
  db srv !! name = Some (Entry (RHash h) t) ->
  redis_db (HGET name key) srv = (inr (dict_get key h), srv).
Proof.
  intros Hh. simpl. unfold handle. simpl. rewrite Hh.
  rewrite server_eta. reflexivity.
Qed.

Lemma hget_missing (key : string) :
  db srv !! name = None -> redis_db (HGET name key) srv = (inr None, srv).
Proof.
  intros Habs. simpl. unfold handle. simpl. rewrite Habs.
  rewrite server_eta. reflexivity.
Qed.

Lemma hgetall_hash (h : list (string * string)) (t : option Z) :
  db srv !! name = Some (Entry (RHash h) t) ->
  redis_db (HGETALL name) srv = (inr h, srv).
Proof.
  intros Hh. simpl. unfold handle. simpl. rewrite Hh.
  rewrite server_eta. reflexivity.
Qed.

Lemma lrange_list (l : list string) (t : option Z) (start stop : Z) :
  db srv !! name = Some (Entry (RList l) t) ->
  redis_db (LRANGE name start stop) srv = (inr (lrange l start stop), srv).
Proof.
  intros Hl. simpl. unfold handle. simpl. rewrite Hl.
  rewrite server_eta. reflexivity.
Qed.

Lemma get_string (s : string) (t : option Z) :
  db srv !! name = Some (Entry (RString s) t) ->
  redis_db (GET name) srv = (inr (Some s), srv).
Proof.
  intros Hs. simpl. unfold handle. simpl. rewrite Hs.
  rewrite server_eta. reflexivity.
Qed.

Lemma delete_present (e : entry) :
  db srv !! name = Some e ->
  redis_db (DELETE [name]) srv = (inr 1, with_db srv (delete name (db srv))).
Proof.
  intros He. simpl. unfold handle. simpl. rewrite He. reflexivity.
Qed.

End RedisAnswers.

Lemma db_with_db (srv : Redis.server) (d : gmap string Redis.entry) :
  Redis.db (with_db srv d) = d.
Proof. reflexivity. Qed.

Lemma with_db_with_db (srv : Redis.server) (d d' : gmap string Redis.entry) :
  with_db (with_db srv d) d' = with_db srv d'.
Proof. reflexivity. Qed.

Lemma session_data_nonempty (session : Session) :
  (fun kv => (fst kv, str_or_dumps (snd kv))) <$> vars session <> [].
Proof. discriminate. Qed.

Lemma hash_update_new (m : list (string * string)) :
  NoDup (map fst m) -> Redis.hash_update [] m = m.
Proof. apply (dict_of_items_nodup m). Qed.

(** ** Sessions on the Redis server, continued *)

Section SessionsOnRedisII.

Import Redis.

Ltac walk :=
  cbn [exec await bind negb fst snd expire_then subscript];
  cbv beta iota zeta.

(** What [save_session] and [update_session] do to a server that has
    nothing under the session's id. *)
Lemma save_session_run (srv : server) (session : Session) (ex : Z) :
  Session_wf session ->
  db srv !! str_or_dumps (session_id session) = None ->
  0 < ex ->
  let key := str_or_dumps (session_id session) in
  let data := (fun kv => (fst kv, str_or_dumps (snd kv))) <$> vars session in
  exec (save_session session ex) srv
  = (Returns (session_id session),
     with_db srv (<[key := Entry (RHash data) (Some ex)]> (db srv)),
     [Issued (HMSET key data); Issued (EXPIRE key ex)]).
Proof.
  intros Hwf Habs Hex key data. unfold save_session, subscript.
  rewrite session_data_key, session_data_wf by assumption. fold key data.
  walk. rewrite hmset_absent by (assumption || apply session_data_nonempty).
  walk. rewrite (expire_positive _ key (RHash (hash_update [] data)) None)
    by (rewrite ?db_with_db, ?lookup_insert_eq; auto).
  walk. rewrite with_db_with_db, db_with_db, insert_insert_eq.
  rewrite hash_update_new by (unfold data; rewrite session_data_keys; exact Hwf).
  reflexivity.
Qed.

(** Saving a new session and deleting it by the id it is stored under
    puts the server back as it was. *)
Theorem save_session_then_delete_session
  (srv : server) (session : Session) (ex : Z) :
  Session_wf session ->
  db srv !! str_or_dumps (session_id session) = None ->
  0 < ex ->
  exec (delete_session (str_or_dumps (session_id session)))
    (final (save_session session ex) srv)
  = (Returns PNone, srv,
     [Issued (HGET (str_or_dumps (session_id session)) "session_id");
      Issued (DELETE [str_or_dumps (session_id session)])]).
Proof.
  intros Hwf Habs Hex. unfold final.
  rewrite save_session_run by assumption. cbn [fst snd].
  set (key := str_or_dumps (session_id session)) in *.
  set (data := (fun kv => (fst kv, str_or_dumps (snd kv))) <$> vars session).
  unfold delete_session. walk.
  rewrite (hget_hash _ key data (Some ex))
    by (rewrite db_with_db; apply lookup_insert_eq).
  walk.
  assert (Hfield : dict_get "session_id" data = Some key) by reflexivity.
  rewrite Hfield, bool_decide_eq_true_2 by reflexivity. walk.
  rewrite (delete_present _ key (Entry (RHash data) (Some ex)))
    by (rewrite db_with_db; apply lookup_insert_eq).
  walk. rewrite with_db_with_db, db_with_db, delete_insert_eq.
  rewrite (delete_id (db srv) key Habs), with_db_same. reflexivity.
Qed.

(** [update_session] does not ask whether the session exists: on a
    server that has nothing under the session's id it creates the session,
    exactly as [save_session] would. *)
Theorem update_session_creates_missing_session
  (srv : server) (session : Session) (ex : Z) :
  Session_wf session ->
  db srv !! str_or_dumps (session_id session) = None ->
  0 < ex ->
  result (update_session session ex) srv = Returns PNone
  /\ final (update_session session ex) srv
     = with_db srv
         (<[str_or_dumps (session_id session)
            := Entry (RHash ((fun kv => (fst kv, str_or_dumps (snd kv)))
                               <$> vars session)) (Some ex)]> (db srv)).
Proof.
  intros Hwf Habs Hex. unfold result, final, update_session, subscript.
  rewrite session_data_key, session_data_wf by assumption.
  set (key := str_or_dumps (session_id session)) in *.
  set (data := (fun kv => (fst kv, str_or_dumps (snd kv))) <$> vars session).
  walk. rewrite hmset_absent by (assumption || apply session_data_nonempty).
  walk. rewrite (expire_positive _ key (RHash (hash_update [] data)) None)
    by (rewrite ?db_with_db, ?lookup_insert_eq; auto).
  walk. rewrite with_db_with_db, db_with_db, insert_insert_eq.
  rewrite hash_update_new by (unfold data; rewrite session_data_keys; exact Hwf).
  split; reflexivity.
Qed.

(** Writing a session over a stored one merges: every attribute of the
    new session replaces the stored field of its name, and a stored field
    that the new session does not have stays in the hash. *)
Theorem update_session_keeps_other_fields
  (srv : server) (session : Session) (ex : Z)
  (h : list (string * string)) (t : option Z) :
  Session_wf session ->
  db srv !! str_or_dumps (session_id session) = Some (Entry (RHash h) t) ->
  0 < ex ->
  result (update_session session ex) srv = Returns PNone
  /\ exists h',
      db (final (update_session session ex) srv)
        !! str_or_dumps (session_id session)
      = Some (Entry (RHash h') (Some ex))
      /\ forall k,
          dict_get k h'
          = match dict_get k (vars session) with
            | Some v => Some (str_or_dumps v)
            | None => dict_get k h
            end.
Proof.
  intros Hwf Hh Hex. unfold result, final, update_session, subscript.
  rewrite session_data_key, session_data_wf by assumption.
  set (key := str_or_dumps (session_id session)) in *.
  set (data := (fun kv => (fst kv, str_or_dumps (snd kv))) <$> vars session).
  walk. rewrite (hmset_hash _ key h t) by (assumption || apply session_data_nonempty).
  walk. rewrite (expire_positive _ key (RHash (hash_update h data)) t)
    by (rewrite ?db_with_db, ?lookup_insert_eq; auto).
  walk. split; [reflexivity|].
  exists (hash_update h data). split.
  - rewrite db_with_db. apply lookup_insert_eq.
  - intros k. rewrite dict_get_hash_update
      by (unfold data; rewrite session_data_keys; exact Hwf).
    unfold data. rewrite dict_get_fmap.
    destruct (dict_get k (vars session)); reflexivity.
Qed.

(** With a ttl that is not positive, [save_session] returns the session's
    id although the expiration it sets removes the session at once: the
    server is left as it was. *)
Theorem save_session_without_ttl_stores_nothing
  (srv : server) (session : Session) (ex : Z) :
  Session_wf session ->
  db srv !! str_or_dumps (session_id session) = None ->
  ex <= 0 ->
  result (save_session session ex) srv = Returns (session_id session)
  /\ final (save_session session ex) srv = srv.
Proof.
  intros Hwf Habs Hex. unfold result, final, save_session, subscript.
  rewrite session_data_key, session_data_wf by assumption.
  set (key := str_or_dumps (session_id session)) in *.
  set (data := (fun kv => (fst kv, str_or_dumps (snd kv))) <$> vars session).
  walk. rewrite hmset_absent by (assumption || apply session_data_nonempty).
  walk. rewrite (expire_not_positive _ key (RHash (hash_update [] data)) None)
    by (rewrite ?db_with_db, ?lookup_insert_eq; auto).
  walk. rewrite with_db_with_db, db_with_db, delete_insert_eq.
  rewrite (delete_id (db srv) key Habs), with_db_same. split; reflexivity.
Qed.

(** On a stored session [get_session] has refreshed the expiration by the
    time it fails, and what it raises then is a [KeyError] or a
    [TypeError], not the client's error class. *)
Theorem get_session_refreshes_then_fails
  (srv : server) (session_id : string) (ex : Z)
  (h : list (string * string)) (t : option Z) :
  db srv !! session_id = Some (Entry (RHash h) t) -> h <> [] -> 0 < ex ->
  final (get_session session_id ex) srv
  = with_db srv (<[session_id := Entry (RHash h) (Some ex)]> (db srv))
  /\ match result (get_session session_id ex) srv with
     | Raises (KeyError _) | Raises (TypeError _) => True
     | _ => False
     end.
Proof.
  intros Hh Hne Hex. unfold result, final, get_session.
  walk. rewrite (hgetall_hash _ session_id h t) by assumption. walk.
  destruct h as [|kv h]; [congruence|].
  change (truthy (PDict (py_items (kv :: h)))) with true. walk.
  rewrite (expire_positive _ session_id (RHash (kv :: h)) t) by assumption.
  walk. rewrite loads_unless_str_items. unfold subscript.
  destruct (dict_get "user_id" _); [|split; [reflexivity | exact I]].
  destruct (dict_get "session_id" _) as [sid|] eqn:Hsid;
    [|split; [reflexivity | exact I]].
  destruct (dict_get "org_id" _); [|split; [reflexivity | exact I]].
  destruct (dict_get "permission_id" _); [|split; [reflexivity | exact I]].
  edestruct Session_call_given_twice as [msg ->];
    [exact Hsid | | split; [reflexivity | exact I]].
  simpl. set_solver.
Qed.

(** On the sequential server [delete_session] has three outcomes and no
    other: nothing or no matching [session_id] field under the id is the
    mismatch error, a key of another type is the server's error, both with
    the server untouched; a matching field removes the key and returns.
    The error of a deletion that removed nothing does not occur. *)
Theorem delete_session_on_server (srv : server) (session_id : string) :
  exec (delete_session session_id) srv
  = match db srv !! session_id with
    | Some (Entry (RHash h) _) =>
        if bool_decide (dict_get "session_id" h = Some session_id) then
          (Returns PNone, with_db srv (delete session_id (db srv)),
           [Issued (HGET session_id "session_id");
            Issued (DELETE [session_id])])
        else
          (Raises (RedisClientError
                     ("invalid session_id, session_id=" +:+ session_id)),
           srv, [Issued (HGET session_id "session_id")])
    | Some _ =>
        (Raises (RedisClientError wrongtype), srv,
         [Issued (HGET session_id "session_id")])
    | None =>
        (Raises (RedisClientError
                   ("invalid session_id, session_id=" +:+ session_id)),
         srv, [Issued (HGET session_id "session_id")])
    end.
Proof.
  unfold delete_session. walk.
  destruct (db srv !! session_id) as [[[s|h|l] t]|] eqn:Hk.
  - simpl. unfold handle. simpl. rewrite Hk, server_eta. reflexivity.
  - rewrite (hget_hash _ session_id h t) by assumption. walk.
    destruct (bool_decide (dict_get "session_id" h = Some session_id));
      walk; [|reflexivity].
    rewrite (delete_present _ session_id (Entry (RHash h) t)) by assumption.
    reflexivity.
  - simpl. unfold handle. simpl. rewrite Hk, server_eta. reflexivity.
  - rewrite hget_missing by assumption. reflexivity.
Qed.

End SessionsOnRedisII.

(** ** Hashes, lists and plain values on the Redis server *)

Section AccessorsOnRedis.

Import Redis.

Ltac walk :=
  cbn [exec await bind negb fst snd]; cbv beta iota zeta.

Lemma expire_present (srv : server) (name : string) (e : entry) (ex : Z) :
  db srv !! name = Some e ->
  exists srv', redis_db (EXPIRE name ex) srv = (inr true, srv').
Proof.
  intros He. destruct e as [v t]. destruct (Z_lt_le_dec 0 ex) as [Hex|Hex].
  - rewrite (expire_positive _ _ v t) by assumption. eauto.
  - rewrite (expire_not_positive _ _ v t) by assumption. eauto.
Qed.

Lemma encoded_keys (py_str : pyval -> string) (items : list (string * pyval)) :
  map fst ((fun kv => (fst kv, encode py_str (snd kv))) <$> items)
  = map fst items.
Proof. rewrite <- list_fmap_compose. reflexivity. Qed.

Lemma save_update_hash_data_run
  (py_str : pyval -> string) (srv : server) (name : string)
  (items : list (string * pyval)) (ex : Z) :
  db srv !! name = None -> items <> [] -> NoDup (map fst items) -> 0 < ex ->
  exec (save_update_hash_data py_str name (PDict items) ex) srv
  = (Returns (PStr name),
     with_db srv
       (<[name := Entry (RHash ((fun kv => (fst kv, encode py_str (snd kv)))
                                  <$> items)) (Some ex)]> (db srv)),
     [Issued (HMSET name ((fun kv => (fst kv, encode py_str (snd kv)))
                            <$> items));
      Issued (EXPIRE name ex)]).
Proof.
  intros Habs Hne Hnd Hex. unfold save_update_hash_data.
  set (stored := (fun kv => (fst kv, encode py_str (snd kv))) <$> items).
  assert (Hstored : stored <> []) by (destruct items; [congruence | discriminate]).
  walk. rewrite hmset_absent by assumption.
  walk. rewrite (expire_positive _ name (RHash (hash_update [] stored)) None)
    by (rewrite ?db_with_db, ?lookup_insert_eq; auto).
  walk. rewrite with_db_with_db, db_with_db, insert_insert_eq.
  rewrite hash_update_new by (unfold stored; rewrite encoded_keys; exact Hnd).
  reflexivity.
Qed.

(** A mapping saved by [save_update_hash_data] under a new name is read
    back by [get_hash_data] field for field, each value as the string the
    client library sent for it: a string as it was, an integer as its
    decimal text; a field that was not saved reads as [None]. *)
Theorem save_update_hash_data_then_get_hash_data
  (py_str : pyval -> string) (srv : server) (name : string)
  (items : list (string * pyval)) (key : string) (ex ex' : Z) :
  db srv !! name = None -> items <> [] -> NoDup (map fst items) -> 0 < ex ->
  key <> "" ->
  result (get_hash_data py_str name PNone ex')
    (final (save_update_hash_data py_str name (PDict items) ex) srv)
  = Returns (PDict ((fun kv => (fst kv, PStr (encode py_str (snd kv))))
                      <$> items))
  /\ result (get_hash_data py_str name (PStr key) ex')
       (final (save_update_hash_data py_str name (PDict items) ex) srv)
     = Returns (py_opt (encode py_str <$> dict_get key items)).
Proof.
  intros Habs Hne Hnd Hex Hkey. unfold final.
  rewrite save_update_hash_data_run by assumption. cbn [fst snd].
  set (stored := (fun kv => (fst kv, encode py_str (snd kv))) <$> items).
  set (srv1 := with_db srv _).
  assert (Hstored : db srv1 !! name = Some (Entry (RHash stored) (Some ex)))
    by apply lookup_insert_eq.
  destruct (expire_present srv1 name _ ex' Hstored) as [srv2 Hexp].
  unfold result, get_hash_data, expire_then. split.
  - cbn [truthy]. walk. rewrite (hgetall_hash _ _ stored (Some ex)) by assumption.
    walk. rewrite Hexp. walk. cbn [fst]. unfold py_items, stored.
    rewrite <- list_fmap_compose. reflexivity.
  - assert (Htruthy : truthy (PStr key) = true).
    { cbn [truthy]. destruct (String.eqb_spec key ""); [congruence | reflexivity]. }
    rewrite Htruthy. cbn [encode]. walk.
    rewrite (hget_hash _ _ stored (Some ex)) by assumption.
    walk. rewrite Hexp. walk. cbn [fst]. unfold stored.
    rewrite dict_get_fmap. reflexivity.
Qed.

(** An empty mapping is refused: [save_update_hash_data] raises the
    client's error after the one refused write, and the server, whatever
    it holds, is left as it was. *)
Theorem save_update_hash_data_empty_mapping
  (py_str : pyval -> string) (srv : server) (name : string) (ex : Z) :
  exists msg,
    exec (save_update_hash_data py_str name (PDict []) ex) srv
    = (Raises (RedisClientError msg), srv, [Issued (HMSET name [])]).
Proof.
  eexists. unfold save_update_hash_data. walk.
  simpl. unfold handle. simpl. rewrite server_eta. reflexivity.
Qed.

(** What [save_list_data] does with an argument that holds nothing to
    push: an argument that is not iterable ([None], a number) is a
    [TypeError] before any call; an empty sequence is the client's error
    after the one refused push, with the server left as it was. *)
Theorem save_list_data_nothing_to_push
  (py_str : pyval -> string) (srv : server) (name : string)
  (list_data : pyval) (save_to_left : bool) (ex : Z) :
  match list_data with
  | PNone | PBool _ | PInt _ =>
      exists msg,
        exec (save_list_data py_str name list_data save_to_left ex) srv
        = (Raises (TypeError msg), srv, [])
  | PList [] | PDict [] =>
      exists msg,
        result (save_list_data py_str name list_data save_to_left ex) srv
        = Raises (RedisClientError msg)
        /\ final (save_list_data py_str name list_data save_to_left ex) srv
           = srv
  | _ => True
  end.
Proof.
  destruct list_data as [| b | z | s | [|x l] | [|kv d]]; try exact I;
    unfold result, final, save_list_data; cbn [is_str star]; eauto;
    destruct save_to_left; walk; simpl; unfold handle; simpl;
    rewrite server_eta; eauto.
Qed.

(** The getters refresh the expiration of the key they read: after a read
    with a positive ttl the key holds what it held, with that ttl. *)
Theorem getters_refresh_expiration
  (py_str : pyval -> string) (srv : server) (name : string)
  (v : rvalue) (t : option Z) (field_name : pyval) (start stop ex : Z) :
  db srv !! name = Some (Entry v t) -> 0 < ex ->
  let refreshed := with_db srv (<[name := Entry v (Some ex)]> (db srv)) in
  match v with
  | RHash _ => final (get_hash_data py_str name field_name ex) srv = refreshed
  | RList _ => final (get_list_data name start stop ex) srv = refreshed
  | RString _ => final (get_usual_data name ex) srv = refreshed
  end.
Proof.
  intros Hv Hex refreshed.
  destruct v as [s|h|l]; unfold final, get_hash_data, get_list_data,
    get_usual_data, expire_then.
  - walk. rewrite (get_string _ _ s t) by assumption. walk.
    rewrite (expire_positive _ _ (RString s) t) by assumption. reflexivity.
  - destruct (truthy field_name); walk;
      [rewrite (hget_hash _ _ h t) by assumption
      |rewrite (hgetall_hash _ _ h t) by assumption];
      walk; rewrite (expire_positive _ _ (RHash h) t) by assumption;
      reflexivity.
  - walk. rewrite (lrange_list _ _ l t) by assumption. walk.
    rewrite (expire_positive _ _ (RList l) t) by assumption. reflexivity.
Qed.

(** Read with a ttl that is not positive, a key is returned and removed:
    the getter gives the value it read, and the refresh deletes the key.
    For a plain value the getter gives the stored text decoded where
    [ujson.loads] decodes it and the text itself where [ujson.loads]
    refuses it; where the model leaves the decoder undecided, so is what
    the getter returns. *)
Theorem getters_without_ttl_remove_the_key
  (py_str : pyval -> string) (srv : server) (name : string)
  (v : rvalue) (t : option Z) (ex : Z) :
  db srv !! name = Some (Entry v t) -> ex <= 0 ->
  let removed := with_db srv (delete name (db srv)) in
  match v with
  | RHash h =>
      exec (get_hash_data py_str name PNone ex) srv
      = (Returns (PDict (py_items h)), removed,
         [Issued (HGETALL name); Issued (EXPIRE name ex)])
  | RList l =>
      exec (get_list_data name 0 (-1) ex) srv
      = (Returns (py_strs l), removed,
         [Issued (LRANGE name 0 (-1)); Issued (EXPIRE name ex)])
  | RString s =>
      exec (get_usual_data name ex) srv
      = (Returns (match Json.loads s with
                  | Json.Parsed x => Known x
                  | Json.Malformed => Known (PStr s)
                  | Json.Undecided => Unknown (PStr s)
                  end),
         removed, [Issued (GET name); Issued (EXPIRE name ex)])
  end.
Proof.
  intros Hv Hex removed.
  destruct v as [s|h|l]; unfold get_hash_data, get_list_data,
    get_usual_data, expire_then.
  - walk. rewrite (get_string _ _ s t) by assumption. walk.
    rewrite (expire_not_positive _ _ (RString s) t) by assumption. walk.
    cbn [py_opt py_loads ignore_error]. destruct (Json.loads s); reflexivity.
  - cbn [truthy]. walk. rewrite (hgetall_hash _ _ h t) by assumption. walk.
    rewrite (expire_not_positive _ _ (RHash h) t) by assumption. reflexivity.
  - walk. rewrite (lrange_list _ _ l t) by assumption. walk.
    rewrite (expire_not_positive _ _ (RList l) t) by assumption. walk.
    rewrite lrange_all. reflexivity.
Qed.


End AccessorsOnRedis.

(** ** Stored texts *)

(** Two values that are not strings are stored as the same text only when
    they are the same value. *)
Theorem str_or_dumps_injective (v w : pyval) :
  is_str v = false -> is_str w = false -> py_wf v -> py_wf w ->
  str_or_dumps v = str_or_dumps w -> v = w.
Proof.
  intros Hv Hw Hwfv Hwfw Heq.
  assert (Hdv : str_or_dumps v = Json.dumps v)
    by (destruct v; try reflexivity; discriminate).
  assert (Hdw : str_or_dumps w = Json.dumps w)
    by (destruct w; try reflexivity; discriminate).
  rewrite Hdv, Hdw in Heq. apply (f_equal Json.loads) in Heq.
  rewrite !JsonFacts.loads_dumps in Heq by assumption. congruence.
Qed.

(** ** Concrete runs, continued *)

Lemma get_session_never_returns_witness :
  result (get_session "s1" EXPIRED)
    (final (save_session alice EXPIRED) empty_server)
  <> Returns alice.
Proof.
  exact (get_session_never_returns "s1" EXPIRED
           (final (save_session alice EXPIRED) empty_server) alice).
Defined.

Lemma save_session_stored_witness :
  (Session_wf alice /\ Redis.db empty_server !! "s1" = None /\ 0 < EXPIRED)
  /\ result (save_session alice EXPIRED) empty_server = Returns (PStr "s1")
  /\ Redis.db (final (save_session alice EXPIRED) empty_server) !! "s1"
     = Some (Redis.Entry
               (Redis.RHash [("user_id", "u1"); ("session_id", "s1");
                             ("org_id", "o1"); ("permission_id", "p1");
                             ("age", "30")]) (Some 86400)).
Proof.
  split; [split; [exact alice_wf | split; reflexivity]|].
  exact (save_session_stored empty_server alice EXPIRED alice_wf eq_refl
           eq_refl).
Defined.

Lemma save_list_data_extends_witness :
  (Redis.db list_server !! "k" = Some (Redis.Entry (Redis.RList ["b"; "c"]) None)
   /\ 0 < EXPIRED /\ ["a"] <> @nil string)
  /\ result (get_list_data "k" 0 (-1) EXPIRED)
       (final (save_list_data (fun _ => "") "k" (PList (PStr <$> ["a"])) true
                 EXPIRED) list_server)
     = Returns (PList [PStr "a"; PStr "b"; PStr "c"]).
Proof.
  assert (Hk : Redis.db list_server !! "k"
               = Some (Redis.Entry (Redis.RList ["b"; "c"]) None))
    by (vm_compute; reflexivity).
  split; [split; [exact Hk | split; [reflexivity | discriminate]]|].
  apply (save_list_data_extends (fun _ => "") list_server "k" ["b"; "c"] None
           ["a"] true EXPIRED EXPIRED); [exact Hk | reflexivity | discriminate].
Defined.

Lemma save_session_then_delete_session_witness :
  (Session_wf alice /\ Redis.db empty_server !! "s1" = None /\ 0 < EXPIRED)
  /\ exec (delete_session "s1") (final (save_session alice EXPIRED) empty_server)
     = (Returns PNone, empty_server,
        [Issued (HGET "s1" "session_id"); Issued (DELETE ["s1"])]).
Proof.
  split; [split; [exact alice_wf | split; reflexivity]|].
  exact (save_session_then_delete_session empty_server alice EXPIRED alice_wf
           eq_refl eq_refl).
Defined.

Lemma update_session_creates_missing_session_witness :
  (Session_wf alice /\ Redis.db empty_server !! "s1" = None /\ 0 < EXPIRED)
  /\ result (update_session alice EXPIRED) empty_server = Returns PNone
  /\ Redis.db (final (update_session alice EXPIRED) empty_server) !! "s1"
     = Some (Redis.Entry
               (Redis.RHash [("user_id", "u1"); ("session_id", "s1");
                             ("org_id", "o1"); ("permission_id", "p1");
                             ("age", "30")]) (Some 86400)).
Proof.
  split; [split; [exact alice_wf | split; reflexivity]|].
  destruct (update_session_creates_missing_session empty_server alice EXPIRED
              alice_wf eq_refl eq_refl) as [Hres Hfin].
  split; [exact Hres|]. rewrite Hfin. vm_compute. reflexivity.
Defined.

Lemma update_session_keeps_other_fields_witness :
  (Session_wf alice
   /\ Redis.db session_server !! "s1"
      = Some (Redis.Entry
                (Redis.RHash [("session_id", "s1"); ("theme", "dark");
                              ("age", "29")]) None)
   /\ 0 < EXPIRED)
  /\ exists h',
      Redis.db (final (update_session alice EXPIRED) session_server) !! "s1"
      = Some (Redis.Entry (Redis.RHash h') (Some EXPIRED))
      /\ dict_get "theme" h' = Some "dark"
      /\ dict_get "age" h' = Some "30".
Proof.
  assert (Hk : Redis.db session_server !! "s1"
               = Some (Redis.Entry
                         (Redis.RHash [("session_id", "s1"); ("theme", "dark");
                                       ("age", "29")]) None))
    by (vm_compute; reflexivity).
  split; [split; [exact alice_wf | split; [exact Hk | reflexivity]]|].
  destruct (update_session_keeps_other_fields session_server alice EXPIRED
              _ None alice_wf Hk eq_refl) as (_ & h' & Hh' & Hget).
  exists h'. split; [exact Hh'|]. rewrite !Hget. split; reflexivity.
Defined.

Lemma save_session_without_ttl_stores_nothing_witness :
  (Session_wf alice /\ Redis.db empty_server !! "s1" = None /\ 0 <= 0)
  /\ result (save_session alice 0) empty_server = Returns (PStr "s1")
  /\ final (save_session alice 0) empty_server = empty_server.
Proof.
  split; [split; [exact alice_wf | split; [reflexivity | lia]]|].
  apply (save_session_without_ttl_stores_nothing empty_server alice 0 alice_wf
           eq_refl). lia.
Defined.

Lemma get_session_refreshes_then_fails_witness :
  (Redis.db session_server !! "s1"
   = Some (Redis.Entry
             (Redis.RHash [("session_id", "s1"); ("theme", "dark");
                           ("age", "29")]) None)
   /\ 0 < EXPIRED)
  /\ Redis.db (final (get_session "s1" EXPIRED) session_server) !! "s1"
     = Some (Redis.Entry
               (Redis.RHash [("session_id", "s1"); ("theme", "dark");
                             ("age", "29")]) (Some EXPIRED)).
Proof.
  assert (Hk : Redis.db session_server !! "s1"
               = Some (Redis.Entry
                         (Redis.RHash [("session_id", "s1"); ("theme", "dark");
                                       ("age", "29")]) None))
    by (vm_compute; reflexivity).
  split; [split; [exact Hk | reflexivity]|].
  destruct (get_session_refreshes_then_fails session_server "s1" EXPIRED
              _ None Hk ltac:(discriminate) eq_refl) as [Hfin _].
  rewrite Hfin. apply lookup_insert_eq.
Defined.

Lemma save_update_hash_data_then_get_hash_data_witness :
  (Redis.db empty_server !! "h" = None
   /\ [("n", PInt 5); ("s", PStr "x")] <> []
   /\ NoDup (map fst [("n", PInt 5); ("s", PStr "x")])
   /\ 0 < EXPIRED /\ "n" <> "")
  /\ result (get_hash_data (fun _ => "") "h" PNone EXPIRED)
       (final (save_update_hash_data (fun _ => "") "h"
                 (PDict [("n", PInt 5); ("s", PStr "x")]) EXPIRED) empty_server)
     = Returns (PDict [("n", PStr "5"); ("s", PStr "x")])
  /\ result (get_hash_data (fun _ => "") "h" (PStr "n") EXPIRED)
       (final (save_update_hash_data (fun _ => "") "h"
                 (PDict [("n", PInt 5); ("s", PStr "x")]) EXPIRED) empty_server)
     = Returns (PStr "5").
Proof.
  assert (Hnd : NoDup (map fst [("n", PInt 5); ("s", PStr "x")]))
    by (apply (bool_decide_unpack _); vm_compute; exact I).
  split; [split; [reflexivity | split; [discriminate | split;
            [exact Hnd | split; [reflexivity | discriminate]]]]|].
  apply (save_update_hash_data_then_get_hash_data (fun _ => "") empty_server
           "h" [("n", PInt 5); ("s", PStr "x")] "n" EXPIRED EXPIRED);
    [reflexivity | discriminate | exact Hnd | reflexivity | discriminate].
Defined.

Lemma getters_refresh_expiration_witness :
  (Redis.db plain_server !! "k"
   = Some (Redis.Entry (Redis.RString "[1,2]") (Some 60)) /\ 0 < EXPIRED)
  /\ final (get_usual_data "k" EXPIRED) plain_server
     = with_db plain_server
         (<["k" := Redis.Entry (Redis.RString "[1,2]") (Some EXPIRED)]>
            (Redis.db plain_server)).
Proof.
  assert (Hk : Redis.db plain_server !! "k"
               = Some (Redis.Entry (Redis.RString "[1,2]") (Some 60)))
    by (vm_compute; reflexivity).
  split; [split; [exact Hk | reflexivity]|].
  exact (getters_refresh_expiration (fun _ => "") plain_server "k" _ (Some 60)
           PNone 0 0 EXPIRED Hk eq_refl).
Defined.

Lemma getters_without_ttl_remove_the_key_witness :
  (Redis.db plain_server !! "k"
   = Some (Redis.Entry (Redis.RString "[1,2]") (Some 60)) /\ 0 <= 0)
  /\ exec (get_usual_data "k" 0) plain_server
     = (Returns (Known (PList [PInt 1; PInt 2])),
        with_db plain_server (delete "k" (Redis.db plain_server)),
        [Issued (GET "k"); Issued (EXPIRE "k" 0)]).
Proof.
  assert (Hk : Redis.db plain_server !! "k"
               = Some (Redis.Entry (Redis.RString "[1,2]") (Some 60)))
    by (vm_compute; reflexivity).
  split; [split; [exact Hk | lia]|].
  exact (getters_without_ttl_remove_the_key (fun _ => "") plain_server "k" _
           (Some 60) 0 Hk ltac:(lia)).
Defined.


Lemma str_or_dumps_injective_witness :
  (is_str (PList [PInt 1]) = false /\ py_wf (PList [PInt 1])
   /\ str_or_dumps (PList [PInt 1]) = str_or_dumps (PList [PInt 1]))
  /\ PList [PInt 1] = PList [PInt 1].
Proof.
  split; [split; [reflexivity | split; [simpl; auto | reflexivity]]|].
  apply str_or_dumps_injective; simpl; auto.
Defined.

(** ** Concrete runs: the decoder and [verify] *)

(** Texts that the model leaves undecided rather than refuse: floats,
    [NaN], a lone minus sign, a number with a leading zero, an escape for
    a character beyond 255. *)
Example loads_leaves_undecided :
  Forall (fun s => Json.loads s = Json.Undecided)
    ["1.5"; "1e2"; "NaN"; "-"; "[-]"; "01"; "-0"; "[1.5]";
     String "034" ("\u0100" +:+ String "034" EmptyString)].
Proof. repeat (constructor; [vm_compute; reflexivity|]). constructor. Qed.

(** Texts that are decoded, and texts that cannot begin a JSON value. *)
Example loads_decides :
  Json.loads "[1, -2]" = Json.Parsed (PList [PInt 1; PInt (-2)])
  /\ Json.loads " true " = Json.Parsed (PBool true)
  /\ Json.loads (String "034" ("\u00e9" +:+ String "034" EmptyString))
     = Json.Parsed (PStr (String (ascii_of_N 233) EmptyString))
  /\ Json.loads "hello" = Json.Malformed
  /\ Json.loads "" = Json.Malformed.
Proof. repeat split. Qed.

(** A plain value that is the text of a float is returned, as whatever
    [ujson.loads] makes of it: the model does not say it is the string. *)
Example get_usual_data_of_a_float_text :
  result (get_usual_data "k" EXPIRED)
    (final (save_update_usual_data "k" (PStr "1.5") EXPIRED) empty_server)
  = Returns (Unknown (PStr "1.5")).
Proof. vm_compute. reflexivity. Qed.

(** Both ways [verify] fails on the Redis server: for a session that is
    not there the client's error is raised anew around [str(e)]; for a
    session that [save_session] stored the [TypeError] of [get_session]
    passes through. *)
Example verify_on_redis (error_str : string -> string) :
  exec (verify error_str "s1") empty_server
  = (Raises (RedisClientError (error_str "not found session, session_id=s1")),
     empty_server, [Issued (HGETALL "s1")])
  /\ exists msg,
      result (verify error_str "s1")
        (final (save_session alice EXPIRED) empty_server)
      = Raises (TypeError msg).
Proof.
  split; [reflexivity|]. eexists. vm_compute. reflexivity.
Qed.
